(** * Infomap logging core (src/utils/Logger.h): a shallow embedding

    The header declares two classes, [Log] (leveled console output through
    per-statement handles) and [Logger] (indentation tracking and the
    benchmark record file), plus the [hideIf] manipulator.  All of their
    state is process-wide ([static] members, the standard streams, one
    function-local static), so the embedding threads one [world] value
    through every call with a small state monad.

    [unsigned int] is taken to be 32 bits wide; values live in [Z] and the
    wrap-around of [++], [--] and [*] is written out with [to_uint]. *)

From Stdlib Require Import ZArith String Ascii List Bool Lia DecimalString.
Import ListNotations.

Open Scope Z_scope.

(** ** Machine integers *)

Definition UINT_BITS : Z := 32.

(** [std::numeric_limits<unsigned int>::max()] *)
Definition UINT_MAX : Z := 2 ^ UINT_BITS - 1.

Definition INT_MAX : Z := 2 ^ (UINT_BITS - 1) - 1.

Definition is_uint (z : Z) : Prop := 0 <= z <= UINT_MAX.

(** Result of an [unsigned int] operation: reduction modulo [2^32]. *)
Definition to_uint (z : Z) : Z := z mod 2 ^ UINT_BITS.

(** Conversion [unsigned int -> int] (the argument of [std::setprecision]
    is an [int]). *)
Definition to_int (z : Z) : Z :=
  if to_uint z <=? INT_MAX then to_uint z else to_uint z - 2 ^ UINT_BITS.

(** ** Text *)

Definition TAB : string := String "009"%char EmptyString.
Definition LF : string := String "010"%char EmptyString.
Definition SPACE : ascii := " "%char.

(** [std::string::assign(n, c)]: the string made of [n] copies of [c]. *)
Fixpoint replicate (n : nat) (c : ascii) : string :=
  match n with
  | O => EmptyString
  | S k => String c (replicate k c)
  end.

Definition string_assign (n : Z) (c : ascii) : string := replicate (Z.to_nat n) c.

Fixpoint only_char (c : ascii) (s : string) : bool :=
  match s with
  | EmptyString => true
  | String a r => Ascii.eqb a c && only_char c r
  end.

Fixpoint mentions (c : ascii) (s : string) : bool :=
  match s with
  | EmptyString => false
  | String a r => Ascii.eqb a c || mentions c r
  end.

(** Cut a text at every occurrence of [sep]. *)
Fixpoint split (sep : ascii) (s : string) : list string :=
  match s with
  | EmptyString => [EmptyString]
  | String a r =>
      if Ascii.eqb a sep
      then EmptyString :: split sep r
      else match split sep r with
           | [] => [String a EmptyString]
           | field :: fields => String a field :: fields
           end
  end.

(** Decimal rendering of an [unsigned int]. *)
Definition decimal (n : Z) : string := NilZero.string_of_uint (N.to_uint (Z.to_N n)).

(** ** Output streams

    A [std::ostream] is modelled by the text written to it so far and the
    one piece of formatting state the header touches, the precision. *)

Record ostream := mk_ostream { os_text : string; os_precision : Z }.

Definition write (os : ostream) (s : string) : ostream :=
  {| os_text := (os_text os ++ s)%string; os_precision := os_precision os |}.

(** A freshly constructed stream: nothing written, precision 6. *)
Definition fresh_ostream : ostream := {| os_text := EmptyString; os_precision := 6 |}.

(** Whatever has an [operator<<] into a [std::ostream]. *)
Class Insertable (T : Type) := put : ostream -> T -> ostream.

#[export] Instance Insertable_string : Insertable string := write.

(** [unsigned int] operands are printed in decimal. *)
Definition unsigned_int : Type := Z.

#[export] Instance Insertable_unsigned_int : Insertable unsigned_int :=
  fun os n => write os (decimal n).

(** The object returned by [std::setprecision(int)]. *)
Record Setprecision := mk_Setprecision { sp_n : Z }.

Definition std_setprecision (n : Z) : Setprecision := {| sp_n := n |}.

#[export] Instance Insertable_Setprecision : Insertable Setprecision :=
  fun os m => {| os_text := os_text os; os_precision := sp_n m |}.

(** Stream manipulators: pointers to functions from [std::ostream&] to
    [std::ostream&]. *)
Definition manipulator : Type := ostream -> ostream.

(** [std::endl] ends the line (the flush leaves the model unchanged). *)
Definition std_endl : manipulator := fun os => write os LF.

(** A [std::ostream&] held by an object: which standard stream it names. *)
Inductive ostream_ref := Cout | Cerr.

(** Modelled from the spec: the [SafeOutFile] class of io/SafeFile.h, which
    Logger.h only includes.  The spec describes the benchmark file
    as a lazily initialised optional sink whose failed open surfaces no
    error: construction never fails, it yields a stream that reports through
    [is_open] whether the file could be opened. *)
Record SafeOutFile := mk_SafeOutFile { is_open : bool; file_stream : ostream }.

Definition file_put {T : Type} `{Insertable T} (f : SafeOutFile) (x : T) : SafeOutFile :=
  {| is_open := is_open f; file_stream := put (file_stream f) x |}.

Definition file_write (f : SafeOutFile) (s : string) : SafeOutFile :=
  {| is_open := is_open f; file_stream := write (file_stream f) s |}.

(** ** The process-wide state *)

Record world := mk_world {
  (* static members of class Log *)
  s_verboseLevel : Z;
  s_silent : Z;
  (* static members of class Logger *)
  s_indentLevel : Z;
  s_indentWidth : Z;
  s_indentString : string;
  s_benchmarkFilename : string;
  MAX_INDENT_LEVEL : Z;
  (* the function-local static of Logger::benchmark; None until the first call *)
  logFile : option SafeOutFile;
  (* the standard streams *)
  std_cout : ostream;
  std_cerr : ostream;
  (* the environment: which paths can be opened for writing *)
  fs_writable : string -> bool
}.

Definition set_s_verboseLevel (v : Z) (w : world) : world :=
  mk_world v (s_silent w) (s_indentLevel w) (s_indentWidth w) (s_indentString w)
    (s_benchmarkFilename w) (MAX_INDENT_LEVEL w) (logFile w) (std_cout w) (std_cerr w)
    (fs_writable w).

Definition set_s_silent (v : Z) (w : world) : world :=
  mk_world (s_verboseLevel w) v (s_indentLevel w) (s_indentWidth w) (s_indentString w)
    (s_benchmarkFilename w) (MAX_INDENT_LEVEL w) (logFile w) (std_cout w) (std_cerr w)
    (fs_writable w).

Definition set_s_indentLevel (v : Z) (w : world) : world :=
  mk_world (s_verboseLevel w) (s_silent w) v (s_indentWidth w) (s_indentString w)
    (s_benchmarkFilename w) (MAX_INDENT_LEVEL w) (logFile w) (std_cout w) (std_cerr w)
    (fs_writable w).

Definition set_s_indentString (v : string) (w : world) : world :=
  mk_world (s_verboseLevel w) (s_silent w) (s_indentLevel w) (s_indentWidth w) v
    (s_benchmarkFilename w) (MAX_INDENT_LEVEL w) (logFile w) (std_cout w) (std_cerr w)
    (fs_writable w).

Definition set_s_benchmarkFilename (v : string) (w : world) : world :=
  mk_world (s_verboseLevel w) (s_silent w) (s_indentLevel w) (s_indentWidth w)
    (s_indentString w) v (MAX_INDENT_LEVEL w) (logFile w) (std_cout w) (std_cerr w)
    (fs_writable w).

Definition set_logFile (v : option SafeOutFile) (w : world) : world :=
  mk_world (s_verboseLevel w) (s_silent w) (s_indentLevel w) (s_indentWidth w)
    (s_indentString w) (s_benchmarkFilename w) (MAX_INDENT_LEVEL w) v (std_cout w)
    (std_cerr w) (fs_writable w).

Definition set_std_cout (v : ostream) (w : world) : world :=
  mk_world (s_verboseLevel w) (s_silent w) (s_indentLevel w) (s_indentWidth w)
    (s_indentString w) (s_benchmarkFilename w) (MAX_INDENT_LEVEL w) (logFile w) v
    (std_cerr w) (fs_writable w).

Definition set_std_cerr (v : ostream) (w : world) : world :=
  mk_world (s_verboseLevel w) (s_silent w) (s_indentLevel w) (s_indentWidth w)
    (s_indentString w) (s_benchmarkFilename w) (MAX_INDENT_LEVEL w) (logFile w)
    (std_cout w) v (fs_writable w).

(** Dereferencing a held stream reference. *)
Definition stream_of (r : ostream_ref) (w : world) : ostream :=
  match r with Cout => std_cout w | Cerr => std_cerr w end.

Definition set_stream (r : ostream_ref) (os : ostream) (w : world) : world :=
  match r with Cout => set_std_cout os w | Cerr => set_std_cerr os w end.

(** ** Computations over the world *)

Definition prog (A : Type) : Type := world -> A * world.

Definition ret {A : Type} (a : A) : prog A := fun w => (a, w).

Definition bind {A B : Type} (c : prog A) (k : A -> prog B) : prog B :=
  fun w => let (a, w') := c w in k a w'.

Definition gets {A : Type} (f : world -> A) : prog A := fun w => (f w, w).

Definition modify (f : world -> world) : prog unit := fun w => (tt, f w).

(** Value and final world of a computation. *)
Definition eval {A : Type} (c : prog A) (w : world) : A := fst (c w).
Definition exec {A : Type} (c : prog A) (w : world) : world := snd (c w).

Declare Scope prog_scope.
Delimit Scope prog_scope with prog.
Bind Scope prog_scope with prog.

Notation "x <- c ;; k" := (bind c (fun x => k))
  (at level 61, c at next level, right associativity) : prog_scope.
Notation "c ;; k" := (bind c (fun _ => k))
  (at level 61, right associativity) : prog_scope.

Open Scope prog_scope.

(** [stream << data] on the stream a reference names. *)
Definition stream_put {T : Type} `{Insertable T} (r : ostream_ref) (data : T) : prog unit :=
  modify (fun w => set_stream r (put (stream_of r w) data) w).

Definition stream_apply (r : ostream_ref) (f : manipulator) : prog unit :=
  modify (fun w => set_stream r (f (stream_of r w)) w).

(** ** struct hideIf *)

Module hideIf.

Record t := ctor { hide : bool }.

End hideIf.

(** ** class Log *)

Module Log.

Record t := mk {
  m_level : Z;
  m_maxLevel : Z;
  m_visible : bool;
  m_ostream : ostream_ref
}.

Definition set_m_visible (v : bool) (this : t) : t :=
  mk (m_level this) (m_maxLevel this) v (m_ostream this).

Definition setVerboseLevel (level : Z) : prog unit :=
  modify (set_s_verboseLevel level).

Definition verboseLevel : prog Z := gets s_verboseLevel.

(** [s_silent] is declared [unsigned int]: the [bool] is stored as 0 or 1. *)
Definition setSilent (silent : bool) : prog unit :=
  modify (set_s_silent (Z.b2z silent)).

Definition isSilent : prog bool := gets (fun w => negb (s_silent w =? 0)).

(** [!s_silent && s_verboseLevel >= level && s_verboseLevel <= maxLevel] *)
Definition levelVisible (level maxLevel : Z) : prog bool :=
  gets (fun w =>
    (s_silent w =? 0) && (s_verboseLevel w >=? level) && (s_verboseLevel w <=? maxLevel)).

Definition getOutputStream (level maxLevel : Z) : ostream_ref := Cout.

(** [Log(level, maxLevel)]; the defaults are [0] and [UINT_MAX]. *)
Definition new (level maxLevel : Z) : prog t :=
  visible <- levelVisible level maxLevel ;;
  ret {| m_level := level;
         m_maxLevel := maxLevel;
         m_visible := visible;
         m_ostream := getOutputStream level maxLevel |}.

(** The copy constructor. *)
Definition copy (other : t) : t :=
  {| m_level := m_level other;
     m_maxLevel := m_maxLevel other;
     m_visible := m_visible other;
     m_ostream := m_ostream other |}.

(** [operator=]: the stream reference of the target is kept. *)
Definition assign (this other : t) : t :=
  {| m_level := m_level other;
     m_maxLevel := m_maxLevel other;
     m_visible := m_visible other;
     m_ostream := m_ostream this |}.

(** The member [levelVisible()]. *)
Definition this_levelVisible (this : t) : prog bool :=
  levelVisible (m_level this) (m_maxLevel this).

(** [m_visible = !value && levelVisible();]  A method that changes the
    handle returns its new state.  [levelVisible()] only reads, so whether
    [&&] skips it makes no difference. *)
Definition hide (this : t) (value : bool) : prog t :=
  gate <- this_levelVisible this ;;
  ret (set_m_visible (negb value && gate) this).

(** The member [operator<< (const hideIf&)], lines 85-88: [return *this;]. *)
Definition op_shl_hideIf (this : t) (manip : hideIf.t) : prog t := ret this.

(** The member template [operator<< (const T& data)]. *)
Definition op_shl {T : Type} `{Insertable T} (this : t) (data : T) : prog t :=
  (if m_visible this then stream_put (m_ostream this) data else ret tt) ;;
  ret this.

(** The member [operator<<] taking a stream manipulator. *)
Definition op_shl_manip (this : t) (f : manipulator) : prog t :=
  (if m_visible this then stream_apply (m_ostream this) f else ret tt) ;;
  ret this.

Definition init (verboseLevel : Z) (silent : bool) (numberPrecision : Z) : prog unit :=
  setVerboseLevel verboseLevel ;;
  setSilent silent ;;
  tmp <- new 0 UINT_MAX ;;
  _ <- op_shl tmp (std_setprecision (to_int numberPrecision)) ;;
  ret tt.

End Log.

(** The friend [operator<< (Log& out, const hideIf& manip)] defined inside
    [struct hideIf], lines 157-162: [out.hide(manip.hide); return out;].
    Its first parameter is a non-const lvalue reference, so it is not a
    candidate when the left operand is a temporary, as in
    [Log(level) << hideIf(b)]: there the member operator above is called. *)
Definition hideIf_op_shl (out : Log.t) (manip : hideIf.t) : prog Log.t :=
  out' <- Log.hide out (hideIf.hide manip) ;;
  ret out'.

(** Modelled from the spec: the constructor of [SafeOutFile] (io/SafeFile.h
    is only included by Logger.h).  Opening is attempted once, here; whether
    it succeeds is a fact of the environment, and a failure is recorded in
    the object instead of being reported. *)
Definition SafeOutFile_new (filename : string) : prog SafeOutFile :=
  gets (fun w => {| is_open := fs_writable w filename; file_stream := fresh_ostream |}).

(** ** class Logger *)

Module Logger.

Inductive LogLevel := LOG_INFO | LOG_DEBUG | LOG_WARN.

Definition pushIndentLevel : prog unit :=
  modify (fun w => set_s_indentLevel (to_uint (s_indentLevel w + 1)) w).

Definition underflow_warning : string :=
  "Warning: Calling Logger::popIndentLevel when already zero!"%string.

Definition popIndentLevel : prog unit :=
  level <- gets s_indentLevel ;;
  if level =? 0
  then stream_put Cerr underflow_warning ;; stream_apply Cerr std_endl
  else modify (fun w => set_s_indentLevel (to_uint (s_indentLevel w - 1)) w).

(** [s_indentLevel * s_indentWidth] is an [unsigned int] product. *)
Definition indent : prog string :=
  wanted <- gets (fun w => to_uint (s_indentLevel w * s_indentWidth w)) ;;
  len <- gets (fun w => Z.of_nat (String.length (s_indentString w))) ;;
  (if negb (len =? wanted)
   then modify (set_s_indentString (string_assign wanted SPACE))
   else ret tt) ;;
  gets s_indentString.

Definition indentLevel : prog Z := gets s_indentLevel.

Definition setBenchmarkFilename (filename : string) : prog unit :=
  modify (set_s_benchmarkFilename filename).

(** [static SafeOutFile logFile(s_benchmarkFilename.c_str());]
    The initialiser runs the first time control passes the declaration. *)
Definition static_logFile : prog SafeOutFile :=
  cur <- gets logFile ;;
  match cur with
  | Some f => ret f
  | None =>
      name <- gets s_benchmarkFilename ;;
      f <- SafeOutFile_new name ;;
      modify (set_logFile (Some f)) ;;
      ret f
  end.

(** [logFile << x] *)
Definition logFile_put {T : Type} `{Insertable T} (x : T) : prog unit :=
  modify (fun w => set_logFile (option_map (fun f => file_put f x) (logFile w)) w).

Section Benchmark.

(** [double] values and the text a stream prints for one (it depends on the
    stream's precision) are left abstract. *)
Variable double : Type.
Variable show_double : Z -> double -> string.

#[local] Instance Insertable_double : Insertable double :=
  fun os x => write os (show_double (os_precision os) x).

(** The first argument stands for the value that
    [Stopwatch::getElapsedTimeSinceProgramStartInSec()] returns during the
    call (Stopwatch.h is only included). *)
Definition benchmark (elapsed : double) (tag : string) (codelength : double)
    (numTopModules numNonTrivialTopModules numLevels : unsigned_int)
    (writeOnlyTag : bool) : prog unit :=
  f <- static_logFile ;;
  if is_open f
  then
    if writeOnlyTag
    then logFile_put tag ;; logFile_put LF
    else
      logFile_put elapsed ;; logFile_put TAB ;; logFile_put tag ;; logFile_put TAB ;;
      logFile_put codelength ;; logFile_put TAB ;; logFile_put numTopModules ;;
      logFile_put TAB ;; logFile_put numNonTrivialTopModules ;; logFile_put TAB ;;
      logFile_put numLevels ;; logFile_put LF
  else ret tt.

End Benchmark.

End Logger.

(** ** The output macros, as the header configures them

    [NO_DEBUG_LOGGING] and [LOGGER_INFO_LEVEL] are defined in the header
    itself; [RELEASE] and [NO_LOGGING] are not. *)

Module Macros.

Definition DEBUG_OUT {T : Type} `{Insertable T} (x : T) : prog unit := ret tt.

Definition RELEASE_OUT {T : Type} `{Insertable T} (x : T) : prog unit :=
  stream_put Cout x.

Definition INDENTED_RELEASE_OUT {T : Type} `{Insertable T} (x : T) : prog unit :=
  level <- Logger.indentLevel ;;
  cap <- gets MAX_INDENT_LEVEL ;;
  if level <=? cap
  then pad <- Logger.indent ;; stream_put Cout pad ;; stream_put Cout x
  else ret tt.

Definition ALL_OUT {T : Type} `{Insertable T} (x : T) : prog unit :=
  stream_put Cout x.

Definition INFO_OUT {T : Type} `{Insertable T} (x : T) : prog unit :=
  stream_put Cout x.

(** [file] and [func] stand for [__FILE__] and [__PRETTY_FUNCTION__]. *)
Definition PRINT_FUNCTION_NAME (file func : string) : prog unit :=
  stream_put Cout file ;; stream_put Cout ": "%string ;; stream_put Cout func ;;
  stream_apply Cout std_endl.

End Macros.

(** ** Sequences of calls *)

(** The calls of the indentation tracker. *)
Inductive indent_call := Push | Pop | ReadIndent.

Definition run_indent_call (c : indent_call) : prog unit :=
  match c with
  | Push => Logger.pushIndentLevel
  | Pop => Logger.popIndentLevel
  | ReadIndent => _ <- Logger.indent ;; ret tt
  end.

Fixpoint run_indent_calls (cs : list indent_call) : prog unit :=
  match cs with
  | [] => ret tt
  | c :: rest => run_indent_call c ;; run_indent_calls rest
  end.

Definition count_push (cs : list indent_call) : Z :=
  Z.of_nat (List.length (filter (fun c => match c with Push => true | _ => false end) cs)).

(** What every state of the tracker satisfies: the counter is an
    [unsigned int] and the cached text holds nothing but spaces. *)
Definition tracker_ok (w : world) : Prop :=
  is_uint (s_indentLevel w) /\ only_char SPACE (s_indentString w) = true.

Section Calls.

Variable double : Type.
Variable show_double : Z -> double -> string.

(** Every entry point of the header, with its arguments. *)
Inductive call : Type :=
| Call_init (verboseLevel : Z) (silent : bool) (numberPrecision : Z)
| Call_setVerboseLevel (level : Z)
| Call_setSilent (silent : bool)
| Call_verboseLevel
| Call_isSilent
| Call_levelVisible (level maxLevel : Z)
| Call_this_levelVisible (h : Log.t)
| Call_new (level maxLevel : Z)
| Call_hide (h : Log.t) (value : bool)
| Call_op_shl (h : Log.t) (T : Type) (ins : Insertable T) (data : T)
| Call_op_shl_manip (h : Log.t) (f : manipulator)
| Call_op_shl_hideIf (h : Log.t) (manip : hideIf.t)
| Call_hideIf_op_shl (h : Log.t) (manip : hideIf.t)
| Call_pushIndentLevel
| Call_popIndentLevel
| Call_indent
| Call_indentLevel
| Call_setBenchmarkFilename (filename : string)
| Call_benchmark (elapsed : double) (tag : string) (codelength : double)
    (numTopModules numNonTrivialTopModules numLevels : unsigned_int) (writeOnlyTag : bool)
| Call_DEBUG_OUT (T : Type) (ins : Insertable T) (x : T)
| Call_RELEASE_OUT (T : Type) (ins : Insertable T) (x : T)
| Call_INDENTED_RELEASE_OUT (T : Type) (ins : Insertable T) (x : T)
| Call_ALL_OUT (T : Type) (ins : Insertable T) (x : T)
| Call_INFO_OUT (T : Type) (ins : Insertable T) (x : T)
| Call_PRINT_FUNCTION_NAME (file func : string).

Definition discard {A : Type} (c : prog A) : prog unit := _ <- c ;; ret tt.

Definition run_call (c : call) : prog unit :=
  match c with
  | Call_init v s p => Log.init v s p
  | Call_setVerboseLevel v => Log.setVerboseLevel v
  | Call_setSilent s => Log.setSilent s
  | Call_verboseLevel => discard Log.verboseLevel
  | Call_isSilent => discard Log.isSilent
  | Call_levelVisible l m => discard (Log.levelVisible l m)
  | Call_this_levelVisible h => discard (Log.this_levelVisible h)
  | Call_new l m => discard (Log.new l m)
  | Call_hide h b => discard (Log.hide h b)
  | Call_op_shl h T ins d => discard (Log.op_shl h d)
  | Call_op_shl_manip h f => discard (Log.op_shl_manip h f)
  | Call_op_shl_hideIf h m => discard (Log.op_shl_hideIf h m)
  | Call_hideIf_op_shl h m => discard (hideIf_op_shl h m)
  | Call_pushIndentLevel => Logger.pushIndentLevel
  | Call_popIndentLevel => Logger.popIndentLevel
  | Call_indent => discard Logger.indent
  | Call_indentLevel => discard Logger.indentLevel
  | Call_setBenchmarkFilename f => Logger.setBenchmarkFilename f
  | Call_benchmark e t c a b l o => Logger.benchmark double show_double e t c a b l o
  | Call_DEBUG_OUT T ins x => Macros.DEBUG_OUT x
  | Call_RELEASE_OUT T ins x => Macros.RELEASE_OUT x
  | Call_INDENTED_RELEASE_OUT T ins x => Macros.INDENTED_RELEASE_OUT x
  | Call_ALL_OUT T ins x => Macros.ALL_OUT x
  | Call_INFO_OUT T ins x => Macros.INFO_OUT x
  | Call_PRINT_FUNCTION_NAME file func => Macros.PRINT_FUNCTION_NAME file func
  end.

(** The handle a call goes through, if any, refers to [std::cout]. *)
Definition on_cout (c : call) : Prop :=
  match c with
  | Call_hide h _ | Call_op_shl h _ _ _ | Call_op_shl_manip h _
  | Call_op_shl_hideIf h _ | Call_hideIf_op_shl h _ => Log.m_ostream h = Cout
  | _ => True
  end.

(** The benchmark record as the specification words it: the fields of a
    full record, in order, and the line of a record, its fields joined by
    single tabs. *)
Definition record_fields (precision : Z) (elapsed : double) (tag : string)
    (codelength : double) (numTopModules numNonTrivialTopModules numLevels : Z)
    : list string :=
  [show_double precision elapsed; tag; show_double precision codelength;
   decimal numTopModules; decimal numNonTrivialTopModules; decimal numLevels].

Definition record_line (precision : Z) (elapsed : double) (tag : string)
    (codelength : double) (numTopModules numNonTrivialTopModules numLevels : Z)
    (writeOnlyTag : bool) : string :=
  String.concat TAB
    (if writeOnlyTag then [tag]
     else record_fields precision elapsed tag codelength
            numTopModules numNonTrivialTopModules numLevels).

Fixpoint run_benchmarks (cs : list (double * string * double * Z * Z * Z * bool)) : prog unit :=
  match cs with
  | [] => ret tt
  | (e, t, c, a, b, l, o) :: rest =>
      Logger.benchmark double show_double e t c a b l o ;; run_benchmarks rest
  end.

End Calls.

(** What has been written anywhere but [std::cout]: the text of
    [std::cerr] and the text of the benchmark file. *)
Definition written_elsewhere (w : world) : string * string :=
  (os_text (std_cerr w),
   match logFile w with
   | Some f => os_text (file_stream f)
   | None => EmptyString
   end).

(** A computation leaves an observation of the world as it found it. *)
Definition preserves {A B : Type} (obs : world -> A) (c : prog B) : Prop :=
  forall w : world, obs (exec c w) = obs w.

(** The one attempt to open the benchmark file has been made and failed. *)
Definition open_failed (w : world) : Prop :=
  exists f : SafeOutFile, logFile w = Some f /\ is_open f = false.

(** ** A sample process state

    The definitions of the static members are not in the header; these
    values serve the examples below. *)

Definition sample_world : world :=
  {| s_verboseLevel := 0;
     s_silent := 0;
     s_indentLevel := 0;
     s_indentWidth := 2;
     s_indentString := EmptyString;
     s_benchmarkFilename := "bench.tsv"%string;
     MAX_INDENT_LEVEL := 4;
     logFile := None;
     std_cout := fresh_ostream;
     std_cerr := fresh_ostream;
     fs_writable := fun _ => true |}.

(** A state deep in nesting: [2^31 - 1] scopes are open (the counter gets
    there by as many calls of [pushIndentLevel]) and [indent()] has not been
    read yet. *)
Definition deep_world : world := set_s_indentLevel (2 ^ 31 - 1) sample_world.

(** The counter at [UINT_MAX]. *)
Definition top_world : world := set_s_indentLevel UINT_MAX sample_world.

(** A handle that outlives a change of configuration: built while logging
    was on, used after [setSilent(true)]. *)
Definition stale_handle : Log.t := eval (Log.new 0 UINT_MAX) sample_world.
Definition silenced_world : world := exec (Log.setSilent true) sample_world.

(** A file system on which nothing can be opened for writing. *)
Definition read_only_world : world :=
  mk_world 0 0 0 2 EmptyString "bench.tsv"%string 4 None fresh_ostream fresh_ostream
    (fun _ => false).

(** For the examples a [double] is given by its printed form. *)
Definition show_literal (precision : Z) (literal : string) : string := literal.

(** The depth as the specification counts it, on unbounded integers: a push
    adds 1, a pop takes 1 away unless the depth is 0, and reading the indent
    text leaves it alone. *)
Fixpoint clamped_depth (d : Z) (cs : list indent_call) : Z :=
  match cs with
  | [] => d
  | Push :: rest => clamped_depth (d + 1) rest
  | Pop :: rest => clamped_depth (Z.max 0 (d - 1)) rest
  | ReadIndent :: rest => clamped_depth d rest
  end.

(** [n] copies of a text, one after the other. *)
Fixpoint repeat_text (n : nat) (s : string) : string :=
  match n with
  | O => EmptyString
  | S k => (s ++ repeat_text k s)%string
  end.

(** The text of a run of benchmark records, each ended by its newline. *)
Fixpoint records_text (double : Type) (show_double : Z -> double -> string)
    (precision : Z) (cs : list (double * string * double * Z * Z * Z * bool)) : string :=
  match cs with
  | [] => EmptyString
  | (e, t, c, a, b, l, o) :: rest =>
      (record_line double show_double precision e t c a b l o ++ LF
       ++ records_text double show_double precision rest)%string
  end.

(** * Properties *)

(** ** Machine integers *)

Lemma to_uint_range (z : Z) : is_uint (to_uint z).
Proof.
  unfold is_uint, to_uint, UINT_MAX.
  assert (0 < 2 ^ UINT_BITS) by (unfold UINT_BITS; lia).
  pose proof (Z.mod_pos_bound z (2 ^ UINT_BITS)); lia.
Qed.

Lemma to_uint_small (z : Z) : is_uint z -> to_uint z = z.
Proof.
  unfold is_uint, to_uint, UINT_MAX; intros Hz.
  apply Z.mod_small; lia.
Qed.

Lemma to_int_small (z : Z) : 0 <= z <= INT_MAX -> to_int z = z.
Proof.
  intros Hz; unfold to_int.
  assert (Hu : to_uint z = z).
  { apply to_uint_small; unfold is_uint, UINT_MAX, INT_MAX, UINT_BITS in *; lia. }
  rewrite Hu.
  destruct (Z.leb_spec z INT_MAX); [reflexivity | lia].
Qed.

(** ** The visibility gate *)

Lemma levelVisible_reads (level maxLevel : Z) (w : world) :
  Log.levelVisible level maxLevel w =
  ((s_silent w =? 0) && (level <=? s_verboseLevel w) && (s_verboseLevel w <=? maxLevel), w).
Proof.
  unfold Log.levelVisible, gets. now rewrite Z.geb_leb.
Qed.

Lemma isSilent_after_setSilent (b : bool) (w : world) :
  eval Log.isSilent (exec (Log.setSilent b) w) = b.
Proof. now destruct b. Qed.

Lemma new_keeps_world (level maxLevel : Z) (w : world) :
  exec (Log.new level maxLevel) w = w.
Proof. reflexivity. Qed.

(** C1: a handle built by [Log(level, maxLevel)] has
    [visible = !silent && level <= verboseLevel && verboseLevel <= maxLevel],
    computed from the configuration in force when it is constructed and kept
    when the configuration changes afterwards; with [silent = false] and the
    default [maxLevel] the handle is visible iff [level <= verboseLevel];
    with [silent = true] every new handle is invisible. *)
Theorem C1_visible_at_construction (w : world) (level maxLevel : Z) :
  is_uint (s_verboseLevel w) ->
  let h := eval (Log.new level maxLevel) w in
  Log.m_visible h =
    negb (eval Log.isSilent w) && (level <=? eval Log.verboseLevel w)
      && (eval Log.verboseLevel w <=? maxLevel)
  /\ (forall (silent' : bool) (level' : Z),
        eval (h' <- Log.new level maxLevel ;;
              Log.setSilent silent' ;; Log.setVerboseLevel level' ;;
              ret (Log.m_visible h')) w = Log.m_visible h)
  /\ (eval Log.isSilent w = false ->
      (Log.m_visible (eval (Log.new level UINT_MAX) w) = true
       <-> level <= eval Log.verboseLevel w))
  /\ (eval Log.isSilent w = true -> Log.m_visible h = false)
  /\ Log.m_visible (eval (Log.setSilent true ;; Log.new level maxLevel) w) = false.
Proof.
  intros HV h. subst h.
  unfold eval, Log.new, bind. rewrite !levelVisible_reads.
  unfold Log.isSilent, Log.verboseLevel, gets, ret; simpl.
  split; [now rewrite negb_involutive |].
  split; [reflexivity |].
  split; [| split].
  - intros Hs. rewrite negb_false_iff in Hs. rewrite Hs; simpl.
    rewrite andb_true_iff, !Z.leb_le.
    unfold is_uint in HV. tauto.
  - intros Hs. rewrite negb_true_iff in Hs. now rewrite Hs.
  - reflexivity.
Qed.

Lemma C1_visible_at_construction_witness :
  is_uint (s_verboseLevel sample_world)
  /\ Log.m_visible (eval (Log.new 0 UINT_MAX) sample_world) = true.
Proof.
  assert (HV : is_uint (s_verboseLevel sample_world)).
  { unfold is_uint, UINT_MAX, UINT_BITS; simpl; lia. }
  split; [exact HV |].
  destruct (C1_visible_at_construction sample_world 0 UINT_MAX HV)
    as (_ & _ & Hopen & _).
  apply Hopen; [reflexivity | cbv; discriminate].
Defined.

(** ** Initialisation *)

Lemma default_handle_visible (w : world) :
  is_uint (s_verboseLevel w) ->
  Log.m_visible (eval (Log.new 0 UINT_MAX) w) = (s_silent w =? 0).
Proof.
  intros [Hlo Hhi]. unfold eval, Log.new, bind. rewrite levelVisible_reads; simpl.
  destruct (Z.leb_spec 0 (s_verboseLevel w)); [| lia].
  destruct (Z.leb_spec (s_verboseLevel w) UINT_MAX); [| lia].
  now rewrite !andb_true_r.
Qed.

Lemma init_unfold (verboseLevel : Z) (silent : bool) (numberPrecision : Z) (w : world) :
  is_uint verboseLevel ->
  exec (Log.init verboseLevel silent numberPrecision) w =
  let w2 := set_s_silent (Z.b2z silent) (set_s_verboseLevel verboseLevel w) in
  if silent then w2
  else set_std_cout
         {| os_text := os_text (std_cout w); os_precision := to_int numberPrecision |} w2.
Proof.
  intros HV.
  unfold exec, Log.init, Log.setVerboseLevel, Log.setSilent, bind, modify.
  set (w2 := set_s_silent (Z.b2z silent) (set_s_verboseLevel verboseLevel w)).
  pose proof (default_handle_visible w2 HV) as Hvis.
  unfold eval in Hvis. destruct (Log.new 0 UINT_MAX w2) as [tmp w3] eqn:Hnew.
  assert (Hw3 : w3 = w2) by (change w3 with (snd (tmp, w3)); now rewrite <- Hnew).
  assert (Hout : Log.m_ostream tmp = Cout)
    by (change tmp with (fst (tmp, w3)); now rewrite <- Hnew).
  simpl in Hvis. subst w3.
  unfold Log.op_shl, bind, stream_put, modify, ret. rewrite Hvis, Hout.
  destruct silent; reflexivity.
Qed.

(** C2 as stated fails: [init(1, true, 3)] leaves the precision of
    [std::cout] at its previous value, 6 here.  The directive goes through a
    handle built after [setSilent(true)], and that handle is invisible. *)
Lemma C2_counterexample :
  os_precision (std_cout (exec (Log.init 1 true 3) sample_world)) <> 3.
Proof. vm_compute. discriminate. Qed.

(** C2, amended: [init(level, silent, precision)] first sets the global
    verbosity level and the silence flag; then, when [silent] is false, it
    sets the precision of the shared sink to [precision] (converted to the
    [int] that [std::setprecision] takes), a setting of the sink that every
    handle writes through; when [silent] is true the sink is left as it
    was.  Nothing is written and nothing else changes. *)
Theorem C2_init_applies_precision_unless_silent
    (w : world) (verboseLevel : Z) (silent : bool) (numberPrecision : Z) :
  is_uint verboseLevel ->
  let w' := exec (Log.init verboseLevel silent numberPrecision) w in
  eval Log.verboseLevel w' = verboseLevel
  /\ eval Log.isSilent w' = silent
  /\ os_precision (std_cout w') =
       (if silent then os_precision (std_cout w) else to_int numberPrecision)
  /\ (silent = false -> 0 <= numberPrecision <= INT_MAX ->
      os_precision (std_cout w') = numberPrecision)
  /\ (forall level maxLevel : Z,
        stream_of (Log.m_ostream (eval (Log.new level maxLevel) w')) w' = std_cout w')
  /\ os_text (std_cout w') = os_text (std_cout w)
  /\ std_cerr w' = std_cerr w
  /\ logFile w' = logFile w.
Proof.
  intros HV w'. subst w'. rewrite (init_unfold _ _ _ _ HV).
  destruct silent; simpl; repeat split; try reflexivity; try discriminate.
  intros _ Hp. now apply to_int_small.
Qed.

Lemma C2_init_applies_precision_unless_silent_witness :
  is_uint 1
  /\ os_precision (std_cout (exec (Log.init 1 false 3) sample_world)) = 3.
Proof.
  assert (HV : is_uint 1) by (unfold is_uint, UINT_MAX, UINT_BITS; lia).
  split; [exact HV |].
  destruct (C2_init_applies_precision_unless_silent sample_world 1 false 3 HV)
    as (_ & _ & _ & Hp & _).
  apply Hp; [reflexivity | unfold INT_MAX, UINT_BITS; lia].
Defined.

(** ** Appending to a handle *)

Lemma op_shl_unfold {T : Type} `{Insertable T} (h : Log.t) (data : T) (w : world) :
  Log.op_shl h data w =
  (h, if Log.m_visible h
      then set_stream (Log.m_ostream h) (put (stream_of (Log.m_ostream h) w) data) w
      else w).
Proof.
  unfold Log.op_shl, bind, stream_put, modify, ret. now destruct (Log.m_visible h).
Qed.

Lemma op_shl_manip_unfold (h : Log.t) (f : manipulator) (w : world) :
  Log.op_shl_manip h f w =
  (h, if Log.m_visible h
      then set_stream (Log.m_ostream h) (f (stream_of (Log.m_ostream h) w)) w
      else w).
Proof.
  unfold Log.op_shl_manip, bind, stream_apply, modify, ret. now destruct (Log.m_visible h).
Qed.

(** C9: appending a value to a handle whose [visible] flag is false writes
    nothing and changes no state; when the flag is true the value is handed
    to the handle's sink as it is; either way the same handle comes back, so
    a chain of appends acts from left to right.  Stream manipulators are
    gated by the same flag. *)
Theorem C9_append_is_gated_by_visible
    (T : Type) (ins : Insertable T) (h : Log.t) (w : world) (data : T) (f : manipulator) :
  eval (Log.op_shl h data) w = h
  /\ exec (Log.op_shl h data) w =
       (if Log.m_visible h
        then set_stream (Log.m_ostream h) (put (stream_of (Log.m_ostream h) w) data) w
        else w)
  /\ eval (Log.op_shl_manip h f) w = h
  /\ exec (Log.op_shl_manip h f) w =
       (if Log.m_visible h
        then set_stream (Log.m_ostream h) (f (stream_of (Log.m_ostream h) w)) w
        else w)
  /\ (forall (U : Type) (insU : Insertable U) (next : U),
        exec (h1 <- Log.op_shl h data ;; Log.op_shl h1 next) w =
        exec (Log.op_shl h next) (exec (Log.op_shl h data) w)).
Proof.
  unfold eval, exec. rewrite op_shl_unfold, op_shl_manip_unfold; simpl.
  repeat split.
  intros U insU next. unfold bind. now rewrite op_shl_unfold.
Qed.

(** ** Hiding *)

Lemma hide_unfold (h : Log.t) (value : bool) (w : world) :
  Log.hide h value w =
  (Log.set_m_visible (negb value && eval (Log.this_levelVisible h) w) h, w).
Proof. reflexivity. Qed.

Lemma hide_keeps_stream (h : Log.t) (value : bool) (w : world) :
  Log.m_ostream (eval (Log.hide h value) w) = Log.m_ostream h.
Proof. reflexivity. Qed.

(** C4 as stated fails for a handle that was built visible and is used
    after the configuration has been silenced: its gate no longer holds,
    yet [hide(false)] has an effect, it turns the handle invisible and the
    text appended next is dropped instead of being written. *)
Lemma C4_counterexample :
  eval (Log.this_levelVisible stale_handle) silenced_world = false
  /\ Log.m_visible stale_handle = true
  /\ eval (Log.hide stale_handle false) silenced_world <> stale_handle
  /\ os_text (std_cout (exec (Log.op_shl stale_handle "x"%string) silenced_world))
     <> os_text (std_cout (exec (h <- Log.hide stale_handle false ;;
                                 Log.op_shl h "x"%string) silenced_world)).
Proof.
  split; [reflexivity |]. split; [reflexivity |].
  split; vm_compute; discriminate.
Qed.

(** C4, amended: [hide(true)] followed by [hide(false)] leaves [visible]
    true exactly when the level/silence gate of the handle holds; when the
    gate does not hold the handle is invisible after [hide(true)] and after
    [hide(false)], so that [hide] has no effect on a handle that was
    invisible already; [hide] never makes visible a handle that the gate
    excludes, and never touches the global state. *)
Theorem C4_hide_only_narrows (w : world) (h : Log.t) :
  let gate := eval (Log.this_levelVisible h) w in
  Log.m_visible (eval (h1 <- Log.hide h true ;; Log.hide h1 false) w) = gate
  /\ (gate = false ->
      forall value : bool,
        Log.m_visible (eval (Log.hide h value) w) = false
        /\ (Log.m_visible h = false -> eval (Log.hide h value) w = h))
  /\ (forall value : bool, Log.m_visible (eval (Log.hide h value) w) = true -> gate = true)
  /\ (forall value : bool, exec (Log.hide h value) w = w).
Proof.
  intros gate. subst gate. unfold eval, exec, bind. rewrite !hide_unfold; simpl.
  split; [reflexivity |].
  split; [| split].
  - intros Hgate value. rewrite Hgate, andb_false_r.
    split; [reflexivity |].
    intros Hinv. destruct h; simpl in *. now subst.
  - intros value. rewrite andb_true_iff. tauto.
  - reflexivity.
Qed.

Lemma C4_hide_only_narrows_witness :
  let w := exec (Log.setSilent true) sample_world in
  let h := eval (Log.new 0 UINT_MAX) w in
  eval (Log.this_levelVisible h) w = false
  /\ eval (Log.hide h false) w = h.
Proof.
  intros w h.
  assert (Hgate : eval (Log.this_levelVisible h) w = false) by reflexivity.
  split; [exact Hgate |].
  destruct (C4_hide_only_narrows w h) as (_ & Hno & _).
  destruct (Hno Hgate false) as (_ & Hsame).
  apply Hsame. reflexivity.
Defined.

Lemma member_hideIf_returns_this (h : Log.t) (manip : hideIf.t) (w : world) :
  Log.op_shl_hideIf h manip w = (h, w).
Proof. reflexivity. Qed.

(** The friend operator does what the manipulator is meant for: it applies
    [hide] with the wrapped flag and hands back the handle, after which a
    true flag suppresses every further append. *)
Lemma friend_hideIf_hides (out : Log.t) (manip : hideIf.t) (w : world) :
  hideIf_op_shl out manip w = Log.hide out (hideIf.hide manip) w
  /\ (hideIf.hide manip = true ->
      forall (T : Type) (ins : Insertable T) (data : T),
        exec (h <- hideIf_op_shl out manip ;; Log.op_shl h data) w = w).
Proof.
  split.
  - unfold hideIf_op_shl, bind, ret. now destruct (Log.hide out (hideIf.hide manip) w).
  - intros Htrue T ins data.
    unfold exec, hideIf_op_shl, bind, ret. rewrite hide_unfold, Htrue.
    cbv beta iota. now rewrite op_shl_unfold.
Qed.

(** C3, on the code: appending [hideIf(true)] through the member
    [operator<<] of [Log] leaves the handle visible, so the text appended
    after the token in the statement [Log(0) << hideIf(true) << x] reaches
    [std::cout]; the friend operator of [hideIf] on the same handle hides
    it and the text is dropped. *)
Theorem C3_member_hideIf_leaves_handle_visible :
  let after_member :=
    h <- Log.new 0 UINT_MAX ;;
    h <- Log.op_shl_hideIf h (hideIf.ctor true) ;;
    Log.op_shl h "x"%string in
  let after_friend :=
    h <- Log.new 0 UINT_MAX ;;
    h <- hideIf_op_shl h (hideIf.ctor true) ;;
    Log.op_shl h "x"%string in
  Log.m_visible (eval after_member sample_world) = true
  /\ os_text (std_cout (exec after_member sample_world)) = "x"%string
  /\ Log.m_visible (eval after_friend sample_world) = false
  /\ os_text (std_cout (exec after_friend sample_world)) = EmptyString.
Proof. repeat split. Qed.

(** ** Text lemmas *)

Lemma append_assoc (a b c : string) : ((a ++ b) ++ c = a ++ (b ++ c))%string.
Proof. induction a as [| x a IH]; simpl; [reflexivity | now rewrite IH]. Qed.

Lemma length_replicate (n : nat) (c : ascii) : String.length (replicate n c) = n.
Proof. induction n as [| n IH]; simpl; [reflexivity | now rewrite IH]. Qed.

Lemma only_char_replicate (n : nat) (c : ascii) : only_char c (replicate n c) = true.
Proof.
  induction n as [| n IH]; simpl; [reflexivity |].
  now rewrite Ascii.eqb_refl, IH.
Qed.

Lemma only_char_is_replicate (c : ascii) (s : string) :
  only_char c s = true -> s = replicate (String.length s) c.
Proof.
  induction s as [| a s IH]; simpl; [reflexivity |].
  rewrite andb_true_iff, Ascii.eqb_eq. intros [-> Hs]. now rewrite <- IH.
Qed.

Lemma length_string_assign (n : Z) (c : ascii) :
  0 <= n -> Z.of_nat (String.length (string_assign n c)) = n.
Proof. intros Hn. unfold string_assign. rewrite length_replicate. lia. Qed.

(** ** The indentation tracker *)

Lemma push_unfold (w : world) :
  Logger.pushIndentLevel w = (tt, set_s_indentLevel (to_uint (s_indentLevel w + 1)) w).
Proof. reflexivity. Qed.

Lemma pop_unfold (w : world) :
  Logger.popIndentLevel w =
  (tt, if s_indentLevel w =? 0
       then set_std_cerr (write (write (std_cerr w) Logger.underflow_warning) LF) w
       else set_s_indentLevel (to_uint (s_indentLevel w - 1)) w).
Proof.
  unfold Logger.popIndentLevel, bind, gets.
  destruct (s_indentLevel w =? 0); reflexivity.
Qed.

Lemma indent_unfold (w : world) :
  Logger.indent w =
  let wanted := to_uint (s_indentLevel w * s_indentWidth w) in
  let text := if Z.of_nat (String.length (s_indentString w)) =? wanted
              then s_indentString w else string_assign wanted SPACE in
  (text, if Z.of_nat (String.length (s_indentString w)) =? wanted
         then w else set_s_indentString text w).
Proof.
  unfold Logger.indent, bind, gets; cbv beta iota zeta.
  destruct (Z.of_nat (String.length (s_indentString w))
            =? to_uint (s_indentLevel w * s_indentWidth w)); reflexivity.
Qed.

(** The text [indent()] returns, with the product as the code computes it. *)
Lemma indent_text (w : world) :
  only_char SPACE (s_indentString w) = true ->
  eval Logger.indent w = string_assign (to_uint (s_indentLevel w * s_indentWidth w)) SPACE.
Proof.
  intros Hsp. unfold eval. rewrite indent_unfold; cbv zeta; simpl.
  destruct (Z.eqb_spec (Z.of_nat (String.length (s_indentString w)))
              (to_uint (s_indentLevel w * s_indentWidth w))) as [Heq | Hne];
    [| reflexivity].
  unfold string_assign. rewrite <- Heq, Nat2Z.id.
  now apply only_char_is_replicate.
Qed.

Lemma indent_keeps_counters (w : world) :
  s_indentLevel (exec Logger.indent w) = s_indentLevel w
  /\ s_indentWidth (exec Logger.indent w) = s_indentWidth w
  /\ std_cerr (exec Logger.indent w) = std_cerr w
  /\ std_cout (exec Logger.indent w) = std_cout w
  /\ logFile (exec Logger.indent w) = logFile w.
Proof.
  unfold exec. rewrite indent_unfold; cbv zeta; simpl.
  destruct (Z.of_nat (String.length (s_indentString w))
            =? to_uint (s_indentLevel w * s_indentWidth w)); repeat split.
Qed.

Lemma indent_keeps_spaces (w : world) :
  only_char SPACE (s_indentString w) = true ->
  only_char SPACE (s_indentString (exec Logger.indent w)) = true.
Proof.
  intros Hsp. unfold exec. rewrite indent_unfold; cbv zeta; simpl.
  destruct (Z.of_nat (String.length (s_indentString w))
            =? to_uint (s_indentLevel w * s_indentWidth w)); [exact Hsp |].
  simpl. apply only_char_replicate.
Qed.

Lemma indent_call_step (c : indent_call) (w : world) :
  tracker_ok w ->
  let w' := exec (run_indent_call c) w in
  tracker_ok w'
  /\ s_indentWidth w' = s_indentWidth w
  /\ s_indentLevel w' <= s_indentLevel w + count_push [c].
Proof.
  intros [Hd Hsp]; destruct c; unfold exec, run_indent_call.
  - rewrite push_unfold; simpl. split; [split |].
    + apply to_uint_range.
    + exact Hsp.
    + split; [reflexivity |]. change (count_push [Push]) with 1.
      unfold to_uint, is_uint in *. apply Z.mod_le; [lia |].
      unfold UINT_BITS; lia.
  - rewrite pop_unfold; simpl.
    destruct (Z.eqb_spec (s_indentLevel w) 0) as [H0 | Hpos]; simpl.
    + split; [split; assumption |].
      split; [reflexivity |]. change (count_push [Pop]) with 0. lia.
    + split; [split; [apply to_uint_range | exact Hsp] |].
      split; [reflexivity |]. change (count_push [Pop]) with 0.
      rewrite to_uint_small; unfold is_uint in *; lia.
  - unfold bind. destruct (Logger.indent w) as [s w1] eqn:Hi.
    assert (Hw1 : w1 = exec Logger.indent w) by (unfold exec; now rewrite Hi).
    simpl. rewrite Hw1.
    destruct (indent_keeps_counters w) as (Hl & Hw & _).
    split; [split |].
    + unfold is_uint. rewrite Hl. exact Hd.
    + now apply indent_keeps_spaces.
    + split; [exact Hw |]. rewrite Hl. change (count_push [ReadIndent]) with 0. lia.
Qed.

Lemma run_indent_calls_cons (c : indent_call) (cs : list indent_call) (w : world) :
  exec (run_indent_calls (c :: cs)) w =
  exec (run_indent_calls cs) (exec (run_indent_call c) w).
Proof.
  unfold exec; simpl; unfold bind. now destruct (run_indent_call c w).
Qed.

Lemma run_indent_calls_app (cs ds : list indent_call) (w : world) :
  exec (run_indent_calls (cs ++ ds)) w =
  exec (run_indent_calls ds) (exec (run_indent_calls cs) w).
Proof.
  revert w; induction cs as [| c cs IH]; intros w; [reflexivity |].
  rewrite <- app_comm_cons, !run_indent_calls_cons. apply IH.
Qed.

Lemma count_push_cons (c : indent_call) (cs : list indent_call) :
  count_push (c :: cs) = count_push [c] + count_push cs.
Proof.
  unfold count_push; destruct c; simpl List.length; lia.
Qed.

(** The invariant survives any sequence of calls, the width never changes,
    and the counter grows by at most the number of pushes. *)
Lemma indent_calls_invariant (cs : list indent_call) (w : world) :
  tracker_ok w ->
  let w' := exec (run_indent_calls cs) w in
  tracker_ok w'
  /\ s_indentWidth w' = s_indentWidth w
  /\ s_indentLevel w' <= s_indentLevel w + count_push cs.
Proof.
  revert w; induction cs as [| c cs IH]; intros w Hok.
  - change (exec (run_indent_calls []) w) with w. change (count_push []) with 0.
    cbv zeta. split; [exact Hok |]. split; [reflexivity | lia].
  - cbv zeta. rewrite run_indent_calls_cons, count_push_cons.
    destruct (indent_call_step c w Hok) as (Hok1 & Hw1 & Hl1).
    destruct (IH _ Hok1) as (Hok2 & Hw2 & Hl2).
    split; [exact Hok2 |]. split; [congruence | lia].
Qed.

Lemma set_s_indentLevel_same (w : world) : set_s_indentLevel (s_indentLevel w) w = w.
Proof. now destruct w. Qed.

Lemma set_s_indentLevel_twice (a b : Z) (w : world) :
  set_s_indentLevel a (set_s_indentLevel b w) = set_s_indentLevel a w.
Proof. reflexivity. Qed.

Lemma pushes_add (n : nat) (w : world) :
  is_uint (s_indentLevel w) ->
  s_indentLevel w + Z.of_nat n <= UINT_MAX ->
  exec (run_indent_calls (repeat Push n)) w =
  set_s_indentLevel (s_indentLevel w + Z.of_nat n) w.
Proof.
  revert w; induction n as [| n IH]; intros w Hd Hn.
  - simpl. rewrite Z.add_0_r. symmetry. apply set_s_indentLevel_same.
  - change (repeat Push (S n)) with (Push :: repeat Push n).
    rewrite run_indent_calls_cons. unfold exec at 2; simpl run_indent_call.
    rewrite push_unfold; simpl snd.
    assert (Hs : to_uint (s_indentLevel w + 1) = s_indentLevel w + 1).
    { apply to_uint_small. unfold is_uint in *. lia. }
    rewrite Hs, IH; simpl.
    + rewrite set_s_indentLevel_twice. f_equal. lia.
    + unfold is_uint in *. lia.
    + lia.
Qed.

Lemma pops_subtract (n : nat) (w : world) :
  is_uint (s_indentLevel w) ->
  Z.of_nat n <= s_indentLevel w ->
  exec (run_indent_calls (repeat Pop n)) w =
  set_s_indentLevel (s_indentLevel w - Z.of_nat n) w.
Proof.
  revert w; induction n as [| n IH]; intros w Hd Hn.
  - simpl. rewrite Z.sub_0_r. symmetry. apply set_s_indentLevel_same.
  - change (repeat Pop (S n)) with (Pop :: repeat Pop n).
    rewrite run_indent_calls_cons. unfold exec at 2; simpl run_indent_call.
    rewrite pop_unfold; simpl snd.
    destruct (Z.eqb_spec (s_indentLevel w) 0) as [H0 | Hpos]; [lia |].
    assert (Hs : to_uint (s_indentLevel w - 1) = s_indentLevel w - 1).
    { apply to_uint_small. unfold is_uint in *. lia. }
    rewrite Hs, IH; simpl.
    + rewrite set_s_indentLevel_twice. f_equal. lia.
    + unfold is_uint in *. lia.
    + lia.
Qed.

(** As long as the counter does not wrap, [n] pushes followed by [n] pops
    give back the very same process state. *)
Lemma pushes_then_pops (n : nat) (w : world) :
  is_uint (s_indentLevel w) ->
  s_indentLevel w + Z.of_nat n <= UINT_MAX ->
  exec (run_indent_calls (repeat Push n ++ repeat Pop n)) w = w.
Proof.
  intros Hd Hn. rewrite run_indent_calls_app, pushes_add by assumption.
  rewrite pops_subtract; simpl.
  - rewrite set_s_indentLevel_twice.
    replace (s_indentLevel w + Z.of_nat n - Z.of_nat n) with (s_indentLevel w) by lia.
    apply set_s_indentLevel_same.
  - unfold is_uint in *. lia.
  - unfold is_uint in *. lia.
Qed.

Lemma indent_texts_differ (w1 w2 : world) :
  only_char SPACE (s_indentString w1) = true ->
  only_char SPACE (s_indentString w2) = true ->
  to_uint (s_indentLevel w1 * s_indentWidth w1)
    <> to_uint (s_indentLevel w2 * s_indentWidth w2) ->
  eval Logger.indent w1 <> eval Logger.indent w2.
Proof.
  intros H1 H2 Hne Heq. rewrite (indent_text w1 H1), (indent_text w2 H2) in Heq.
  apply (f_equal String.length) in Heq.
  unfold string_assign in Heq. rewrite !length_replicate in Heq.
  pose proof (to_uint_range (s_indentLevel w1 * s_indentWidth w1)) as [R1 _].
  pose proof (to_uint_range (s_indentLevel w2 * s_indentWidth w2)) as [R2 _].
  apply Hne. now apply Z2Nat.inj.
Qed.

(** C5 as stated fails when the depth counter wraps: at depth [UINT_MAX]
    one push takes the counter to 0, the pop that follows finds it at 0 and
    only warns, and the indent text is empty instead of what it was. *)
Lemma C5_counterexample :
  tracker_ok top_world
  /\ s_indentLevel (exec (run_indent_calls (repeat Push 1 ++ repeat Pop 1)) top_world) = 0
  /\ eval Logger.indent (exec (run_indent_calls (repeat Push 1 ++ repeat Pop 1)) top_world)
     <> eval Logger.indent top_world.
Proof.
  split; [| split].
  - split; [| reflexivity]. unfold is_uint; vm_compute; split; discriminate.
  - vm_compute. reflexivity.
  - apply indent_texts_differ.
    + vm_compute. reflexivity.
    + vm_compute. reflexivity.
    + vm_compute. discriminate.
Qed.

(** The product wraps as well: with width 2, the push that takes the depth
    from [2^31 - 1] to [2^31] is followed by an [indent()] of length 0. *)
Example indent_length_wraps :
  tracker_ok deep_world
  /\ s_indentLevel (exec (run_indent_calls [Push]) deep_world) = 2 ^ 31
  /\ eval Logger.indent (exec (run_indent_calls [Push]) deep_world) = EmptyString.
Proof.
  split; [| split].
  - split; [| reflexivity]. unfold is_uint; vm_compute; split; discriminate.
  - vm_compute. reflexivity.
  - vm_compute. reflexivity.
Qed.

Lemma count_push_nonneg (cs : list indent_call) : 0 <= count_push cs.
Proof. unfold count_push; lia. Qed.

(** What [popIndentLevel] does to the depth: one less, but never below 0. *)
Lemma pop_depth (w : world) :
  is_uint (s_indentLevel w) ->
  s_indentLevel (exec Logger.popIndentLevel w) = Z.max 0 (s_indentLevel w - 1).
Proof.
  intros Hd. unfold exec. rewrite pop_unfold; cbn [snd].
  destruct (Z.eqb_spec (s_indentLevel w) 0) as [H0 | Hne].
  - cbn [s_indentLevel set_std_cerr]. rewrite H0. reflexivity.
  - cbn [s_indentLevel set_s_indentLevel].
    rewrite to_uint_small; unfold is_uint in *; lia.
Qed.

(** While the counter does not wrap, the depth kept by the code is the depth
    counted on unbounded integers. *)
Lemma depth_is_clamped_count (cs : list indent_call) (w : world) :
  tracker_ok w ->
  s_indentLevel w + count_push cs <= UINT_MAX ->
  s_indentLevel (exec (run_indent_calls cs) w) = clamped_depth (s_indentLevel w) cs.
Proof.
  revert w; induction cs as [| c cs IH]; intros w Hok Hfit; [reflexivity |].
  rewrite run_indent_calls_cons. rewrite count_push_cons in Hfit.
  pose proof (count_push_nonneg cs) as Hcs.
  destruct (indent_call_step c w Hok) as (Hok1 & _ & Hle1).
  destruct Hok as [Hd Hsp].
  assert (Hstep : s_indentLevel (exec (run_indent_call c) w)
                  = match c with
                    | Push => s_indentLevel w + 1
                    | Pop => Z.max 0 (s_indentLevel w - 1)
                    | ReadIndent => s_indentLevel w
                    end).
  { destruct c.
    - unfold exec; simpl run_indent_call. rewrite push_unfold; cbn [snd].
      cbn [s_indentLevel set_s_indentLevel]. change (count_push [Push]) with 1 in Hfit.
      apply to_uint_small. unfold is_uint in *. lia.
    - now apply pop_depth.
    - unfold exec; simpl run_indent_call. unfold bind.
      destruct (indent_keeps_counters w) as (Hl & _). unfold exec in Hl.
      destruct (Logger.indent w) as [s w1]. exact Hl. }
  rewrite IH; [| exact Hok1 | lia].
  rewrite Hstep. now destruct c.
Qed.

(** C5, amended: start from a state whose cached text holds only spaces
    (the empty cache does) and take any finite sequence of
    [pushIndentLevel], [popIndentLevel] and [indent] calls.  After each call
    [indent()] returns exactly [depth * width] spaces, the product being the
    [unsigned int] one the code computes, which is the exact product
    whenever that fits.  The depth never goes below zero: it is not
    negative, it is at most the starting depth plus the number of pushes, a
    further pop would leave it at [max 0 (depth - 1)], and as long as the
    counter does not exceed [UINT_MAX] it is the count of pushes and pops in
    which a pop at 0 counts for nothing.  And [n] pops right after [n]
    pushes restore the depth and the indent text provided [depth + n] does
    not exceed [UINT_MAX]. *)
Theorem C5_indent_is_depth_times_width
    (w : world) (calls : list indent_call) (k : nat) :
  tracker_ok w ->
  is_uint (s_indentWidth w) ->
  let w' := exec (run_indent_calls (firstn k calls)) w in
  eval Logger.indent w'
    = string_assign (to_uint (s_indentLevel w' * s_indentWidth w')) SPACE
  /\ (s_indentLevel w' * s_indentWidth w' <= UINT_MAX ->
      eval Logger.indent w' = string_assign (s_indentLevel w' * s_indentWidth w') SPACE
      /\ Z.of_nat (String.length (eval Logger.indent w'))
         = s_indentLevel w' * s_indentWidth w')
  /\ 0 <= s_indentLevel w'
  /\ (forall n : nat,
        s_indentLevel w' + Z.of_nat n <= UINT_MAX ->
        let w'' := exec (run_indent_calls (repeat Push n ++ repeat Pop n)) w' in
        s_indentLevel w'' = s_indentLevel w'
        /\ eval Logger.indent w'' = eval Logger.indent w')
  /\ s_indentLevel w' <= s_indentLevel w + count_push (firstn k calls)
  /\ s_indentLevel (exec Logger.popIndentLevel w') = Z.max 0 (s_indentLevel w' - 1)
  /\ (s_indentLevel w + count_push (firstn k calls) <= UINT_MAX ->
      s_indentLevel w' = clamped_depth (s_indentLevel w) (firstn k calls)).
Proof.
  intros Hok Hwidth w'.
  destruct (indent_calls_invariant (firstn k calls) w Hok) as (Hok' & Hw' & Hle').
  fold w' in Hok', Hw', Hle'. destruct Hok' as [Hd' Hsp'].
  split; [now apply indent_text |].
  split; [| split; [| split; [| split; [| split]]]].
  - intros Hfits.
    assert (Hfit : is_uint (s_indentLevel w' * s_indentWidth w')).
    { unfold is_uint in *. rewrite Hw' in *. split; [nia | exact Hfits]. }
    assert (Htext : eval Logger.indent w'
                    = string_assign (s_indentLevel w' * s_indentWidth w') SPACE).
    { rewrite (indent_text w' Hsp'). now rewrite (to_uint_small _ Hfit). }
    split; [exact Htext |].
    rewrite Htext. apply length_string_assign. apply Hfit.
  - apply Hd'.
  - intros n Hn w''. subst w''. rewrite pushes_then_pops by assumption. now split.
  - exact Hle'.
  - now apply pop_depth.
  - intros Hfit. subst w'. now apply depth_is_clamped_count.
Qed.

Lemma C5_indent_is_depth_times_width_witness :
  tracker_ok sample_world
  /\ is_uint (s_indentWidth sample_world)
  /\ eval Logger.indent (exec (run_indent_calls (firstn 2 [Push; Push; Pop])) sample_world)
     = "    "%string.
Proof.
  assert (Hok : tracker_ok sample_world).
  { split; [| reflexivity]. unfold is_uint; vm_compute; split; discriminate. }
  assert (Hwidth : is_uint (s_indentWidth sample_world))
    by (unfold is_uint; vm_compute; split; discriminate).
  split; [exact Hok |]. split; [exact Hwidth |].
  destruct (C5_indent_is_depth_times_width sample_world [Push; Push; Pop] 2 Hok Hwidth)
    as (Htext & _).
  rewrite Htext. reflexivity.
Defined.

(** C8: [popIndentLevel] at depth 0 leaves the depth at 0 and writes one
    warning line to [std::cerr], leaving [std::cout] and everything else as
    they were, and the program goes on; at a depth above 0 it lowers the
    depth by exactly 1 and writes nothing. *)
Theorem C8_pop_at_zero_warns (w : world) :
  is_uint (s_indentLevel w) ->
  let w' := exec Logger.popIndentLevel w in
  (s_indentLevel w = 0 ->
     s_indentLevel w' = 0
     /\ os_text (std_cerr w')
        = (os_text (std_cerr w) ++ Logger.underflow_warning ++ LF)%string
     /\ std_cout w' = std_cout w
     /\ w' = set_std_cerr (std_endl (put (std_cerr w) Logger.underflow_warning)) w
     /\ forall next : prog unit,
          exec (Logger.popIndentLevel ;; next) w = exec next w')
  /\ (0 < s_indentLevel w ->
     s_indentLevel w' = s_indentLevel w - 1
     /\ std_cerr w' = std_cerr w
     /\ std_cout w' = std_cout w
     /\ w' = set_s_indentLevel (s_indentLevel w - 1) w).
Proof.
  intros Hd w'. subst w'. unfold exec. rewrite pop_unfold; simpl snd.
  split.
  - intros H0. rewrite H0; simpl.
    split; [exact H0 |].
    split; [apply append_assoc |].
    split; [reflexivity |].
    split; [reflexivity |].
    intros next. unfold bind. rewrite pop_unfold, H0. reflexivity.
  - intros Hpos.
    destruct (Z.eqb_spec (s_indentLevel w) 0) as [H0 | Hne]; [lia |].
    assert (Hs : to_uint (s_indentLevel w - 1) = s_indentLevel w - 1).
    { apply to_uint_small. unfold is_uint in *. lia. }
    rewrite Hs. repeat split.
Qed.

Lemma C8_pop_at_zero_warns_witness :
  is_uint (s_indentLevel sample_world)
  /\ s_indentLevel (exec Logger.popIndentLevel sample_world) = 0.
Proof.
  assert (Hd : is_uint (s_indentLevel sample_world))
    by (unfold is_uint; vm_compute; split; discriminate).
  split; [exact Hd |].
  destruct (C8_pop_at_zero_warns sample_world Hd) as (Hzero & _).
  destruct (Hzero eq_refl) as (Hdepth & _).
  exact Hdepth.
Defined.

(** ** Cutting text into fields *)

Lemma mentions_append (c : ascii) (a b : string) :
  mentions c (a ++ b) = mentions c a || mentions c b.
Proof.
  induction a as [| x a IH]; simpl; [reflexivity |].
  now rewrite IH, orb_assoc.
Qed.

Lemma split_plain (sep : ascii) (s : string) :
  mentions sep s = false -> split sep s = [s].
Proof.
  induction s as [| a s IH]; simpl; [reflexivity |].
  rewrite orb_false_iff. intros [Ha Hs]. now rewrite Ha, (IH Hs).
Qed.

Lemma split_field (sep : ascii) (s rest : string) :
  mentions sep s = false ->
  split sep (s ++ String sep rest) = s :: split sep rest.
Proof.
  induction s as [| a s IH]; simpl.
  - intros _. now rewrite Ascii.eqb_refl.
  - rewrite orb_false_iff. intros [Ha Hs]. now rewrite Ha, (IH Hs).
Qed.

Lemma split_concat (sep : ascii) (fields : list string) :
  fields <> [] ->
  Forall (fun f => mentions sep f = false) fields ->
  split sep (String.concat (String sep EmptyString) fields) = fields.
Proof.
  induction fields as [| f fields IH]; [congruence |].
  intros _ Hall. inversion Hall as [| f' fs' Hf Hrest]; subst.
  destruct fields as [| g fields].
  - simpl. now apply split_plain.
  - change (String.concat (String sep EmptyString) (f :: g :: fields))
      with (f ++ String sep (String.concat (String sep EmptyString) (g :: fields)))%string.
    rewrite (split_field _ _ _ Hf), IH; [reflexivity | congruence | exact Hrest].
Qed.

Lemma mentions_concat (c sep : ascii) (fields : list string) :
  Ascii.eqb sep c = false ->
  Forall (fun f => mentions c f = false) fields ->
  mentions c (String.concat (String sep EmptyString) fields) = false.
Proof.
  intros Hsep. induction fields as [| f fields IH]; [reflexivity |].
  intros Hall. inversion Hall as [| f' fs' Hf Hrest]; subst.
  destruct fields as [| g fields]; [exact Hf |].
  change (String.concat (String sep EmptyString) (f :: g :: fields))
    with (f ++ String sep (String.concat (String sep EmptyString) (g :: fields)))%string.
  rewrite mentions_append, Hf; simpl. rewrite Hsep; simpl. now apply IH.
Qed.

Lemma digits_only (c : ascii) (d : Decimal.uint) :
  (forall k : nat, (k < 10)%nat -> Ascii.eqb (ascii_of_nat (48 + k)) c = false) ->
  mentions c (NilEmpty.string_of_uint d) = false.
Proof.
  intros Hc. induction d; simpl; try reflexivity; rewrite IHd, orb_false_r.
  - apply (Hc 0%nat); lia.
  - apply (Hc 1%nat); lia.
  - apply (Hc 2%nat); lia.
  - apply (Hc 3%nat); lia.
  - apply (Hc 4%nat); lia.
  - apply (Hc 5%nat); lia.
  - apply (Hc 6%nat); lia.
  - apply (Hc 7%nat); lia.
  - apply (Hc 8%nat); lia.
  - apply (Hc 9%nat); lia.
Qed.

Lemma not_a_digit (c : ascii) :
  (nat_of_ascii c < 48)%nat ->
  forall k : nat, (k < 10)%nat -> Ascii.eqb (ascii_of_nat (48 + k)) c = false.
Proof.
  intros Hc k Hk. apply Ascii.eqb_neq. intros Heq.
  apply (f_equal nat_of_ascii) in Heq.
  rewrite nat_ascii_embedding in Heq; lia.
Qed.

Lemma decimal_has_no (c : ascii) (n : Z) :
  (nat_of_ascii c < 48)%nat -> mentions c (decimal n) = false.
Proof.
  intros Hc. unfold decimal, NilZero.string_of_uint.
  destruct (N.to_uint (Z.to_N n)) eqn:Hd;
    try (rewrite <- Hd; apply digits_only; now apply not_a_digit).
  simpl. rewrite orb_false_r. apply (not_a_digit c Hc 0%nat). lia.
Qed.

(** ** The benchmark recorder *)

Lemma static_logFile_unfold (w : world) :
  Logger.static_logFile w =
  match logFile w with
  | Some f => (f, w)
  | None =>
      let f := {| is_open := fs_writable w (s_benchmarkFilename w);
                  file_stream := fresh_ostream |} in
      (f, set_logFile (Some f) w)
  end.
Proof.
  unfold Logger.static_logFile, bind, gets. now destruct (logFile w).
Qed.

Lemma static_logFile_once (w : world) :
  logFile (exec Logger.static_logFile w) = Some (eval Logger.static_logFile w)
  /\ exec Logger.static_logFile w = set_logFile (Some (eval Logger.static_logFile w)) w.
Proof.
  unfold exec, eval. rewrite static_logFile_unfold.
  destruct (logFile w) as [f |] eqn:Hf; simpl; [| now split].
  split; [exact Hf |]. destruct w; simpl in *. now subst.
Qed.

Lemma exec_bind {A B : Type} (c : prog A) (k : A -> prog B) (w : world) :
  exec (bind c k) w = exec (k (eval c w)) (exec c w).
Proof. unfold exec, eval, bind. now destruct (c w). Qed.

Lemma exec_logFile_put {T : Type} `{Insertable T} (x : T) (f : SafeOutFile) (w : world) :
  exec (Logger.logFile_put x) (set_logFile (Some f) w)
  = set_logFile (Some (file_put f x)) w.
Proof. reflexivity. Qed.

Lemma file_put_string (f : SafeOutFile) (s : string) : file_put f s = file_write f s.
Proof. reflexivity. Qed.

Lemma file_put_unsigned_int (f : SafeOutFile) (n : unsigned_int) :
  file_put f n = file_write f (decimal n).
Proof. reflexivity. Qed.

Lemma file_write_twice (f : SafeOutFile) (a b : string) :
  file_write (file_write f a) b = file_write f (a ++ b).
Proof.
  unfold file_write, write; simpl. now rewrite append_assoc.
Qed.

Lemma file_write_precision (f : SafeOutFile) (a : string) :
  os_precision (file_stream (file_write f a)) = os_precision (file_stream f).
Proof. reflexivity. Qed.

Lemma set_logFile_congr (f g : SafeOutFile) (w : world) :
  f = g -> set_logFile (Some f) w = set_logFile (Some g) w.
Proof. now intros ->. Qed.

Section BenchmarkProperties.

Variable double : Type.
Variable show_double : Z -> double -> string.

Let benchmark := Logger.benchmark double show_double.

Lemma file_put_double (f : SafeOutFile) (x : double) :
  @file_put double (Logger.Insertable_double double show_double) f x
  = file_write f (show_double (os_precision (file_stream f)) x).
Proof. reflexivity. Qed.

(** What a call does once the static stream exists: the record line and a
    newline are added to the file when it is open, nothing otherwise. *)
Lemma benchmark_unfold (elapsed : double) (tag : string) (codelength : double)
    (a b c : Z) (only_tag : bool) (w : world) :
  exec (benchmark elapsed tag codelength a b c only_tag) w =
  let f := eval Logger.static_logFile w in
  if is_open f
  then set_logFile
         (Some {| is_open := is_open f;
                  file_stream :=
                    write (file_stream f)
                      (record_line double show_double (os_precision (file_stream f))
                         elapsed tag codelength a b c only_tag ++ LF) |}) w
  else set_logFile (Some f) w.
Proof.
  cbv zeta. unfold benchmark, Logger.benchmark.
  rewrite exec_bind. destruct (static_logFile_once w) as [_ Hw]. rewrite Hw.
  set (f := eval Logger.static_logFile w).
  destruct (is_open f) eqn:Hopen; [| reflexivity].
  destruct only_tag; repeat (rewrite exec_bind; cbv beta);
    repeat match goal with
      | |- context [exec (Logger.logFile_put ?x) (set_logFile (Some ?g) ?w0)] =>
          rewrite (exec_logFile_put x g w0)
      end;
    apply set_logFile_congr;
    rewrite ?file_put_string, ?file_put_unsigned_int, ?file_put_double;
    rewrite ?file_write_twice, ?file_write_precision;
    unfold file_write; rewrite Hopen;
    unfold record_line, record_fields, String.concat;
    repeat rewrite append_assoc; reflexivity.
Qed.

(** With no tab or newline inside the tag and the printed numbers, the
    added text reads back as one line, and the line as the record's fields. *)
Lemma benchmark_record_reads_back (precision : Z) (elapsed : double) (tag : string)
    (codelength : double) (a b c : Z) (only_tag : bool) :
  let line := record_line double show_double precision elapsed tag codelength a b c only_tag in
  (forall sep : ascii, sep = "009"%char \/ sep = "010"%char ->
     mentions sep tag = false
     /\ mentions sep (show_double precision elapsed) = false
     /\ mentions sep (show_double precision codelength) = false) ->
  split "010"%char (line ++ LF) = [line; EmptyString]
  /\ split "009"%char line =
     (if only_tag then [tag]
      else record_fields double show_double precision elapsed tag codelength a b c).
Proof.
  intros line Hclean.
  assert (Hfields : forall sep : ascii, sep = "009"%char \/ sep = "010"%char ->
            Forall (fun f => mentions sep f = false)
              (if only_tag then [tag]
               else record_fields double show_double precision elapsed tag codelength a b c)).
  { intros sep Hsep. destruct (Hclean sep Hsep) as (Ht & He & Hc).
    assert (Hlow : (nat_of_ascii sep < 48)%nat) by (destruct Hsep; subst sep; apply Nat.ltb_lt; reflexivity).
    destruct only_tag; unfold record_fields;
      repeat (apply Forall_cons; [first [assumption | now apply decimal_has_no] |]);
      apply Forall_nil. }
  split.
  - unfold LF. rewrite split_field; [reflexivity |].
    apply mentions_concat; [reflexivity | apply Hfields; now right].
  - apply split_concat; [now destruct only_tag | apply Hfields; now left].
Qed.

(** C6, amended: when the benchmark file is open, a call of [benchmark]
    adds to it exactly the text of one record followed by a newline, and
    changes nothing else: the record is [tag] alone when [writeOnlyTag] is
    true, and otherwise the six items elapsed seconds, [tag], [codelength],
    [numTopModules], [numNonTrivialTopModules], [numLevels], in that order,
    joined by single tabs.  When [tag] (and the printed form of the two
    doubles) contains no tab and no newline, the added text is exactly one
    newline-terminated line, and that line has exactly one field, [tag],
    or exactly these six tab-separated fields. *)
Theorem C6_benchmark_appends_one_record
    (w : world) (elapsed : double) (tag : string) (codelength : double)
    (numTopModules numNonTrivialTopModules numLevels : Z) (writeOnlyTag : bool) :
  let f := eval Logger.static_logFile w in
  is_open f = true ->
  let p := os_precision (file_stream f) in
  let fields :=
    if writeOnlyTag then [tag]
    else [show_double p elapsed; tag; show_double p codelength;
          decimal numTopModules; decimal numNonTrivialTopModules; decimal numLevels] in
  let line := String.concat TAB fields in
  let w' := exec (benchmark elapsed tag codelength numTopModules
                    numNonTrivialTopModules numLevels writeOnlyTag) w in
  (exists f' : SafeOutFile,
      logFile w' = Some f'
      /\ is_open f' = true
      /\ os_text (file_stream f') = (os_text (file_stream f) ++ line ++ LF)%string)
  /\ List.length fields = (if writeOnlyTag then 1%nat else 6%nat)
  /\ std_cout w' = std_cout w
  /\ std_cerr w' = std_cerr w
  /\ set_logFile (logFile w) w' = w
  /\ ((forall sep : ascii, sep = "009"%char \/ sep = "010"%char ->
         mentions sep tag = false
         /\ mentions sep (show_double p elapsed) = false
         /\ mentions sep (show_double p codelength) = false) ->
      split "010"%char (line ++ LF) = [line; EmptyString]
      /\ split "009"%char line = fields).
Proof.
  intros f Hopen p fields line w'. subst w'. rewrite benchmark_unfold. fold f.
  cbv zeta. rewrite Hopen.
  assert (Hline : line = record_line double show_double p elapsed tag codelength
                           numTopModules numNonTrivialTopModules numLevels writeOnlyTag).
  { subst line fields. unfold record_line, record_fields. now destruct writeOnlyTag. }
  split; [| split; [| split; [| split; [| split]]]].
  - eexists. split; [reflexivity |]. split; [reflexivity |].
    simpl. now rewrite Hline.
  - subst fields. now destruct writeOnlyTag.
  - reflexivity.
  - reflexivity.
  - simpl. now destruct w.
  - intros Hclean.
    destruct (benchmark_record_reads_back p elapsed tag codelength
                numTopModules numNonTrivialTopModules numLevels writeOnlyTag Hclean)
      as [Hone Hsplit].
    rewrite Hline. split; [exact Hone |].
    rewrite Hsplit. subst fields. unfold record_fields. now destruct writeOnlyTag.
Qed.

(** C7: once the lazy open of the benchmark file has failed, every later
    call of [benchmark] returns without adding anything, without trying to
    open the file again and without changing any state, whatever the file
    name and the file system have become in the meantime. *)
Theorem C7_failed_open_silences_benchmark
    (w : world) (elapsed : double) (tag : string) (codelength : double)
    (a b c : Z) (only_tag : bool)
    (later : list (double * string * double * Z * Z * Z * bool)) :
  logFile w = None ->
  fs_writable w (s_benchmarkFilename w) = false ->
  let w1 := exec (benchmark elapsed tag codelength a b c only_tag) w in
  w1 = set_logFile (Some {| is_open := false; file_stream := fresh_ostream |}) w
  /\ open_failed w1
  /\ exec (run_benchmarks double show_double later) w1 = w1
  /\ (forall w2 : world,
        open_failed w2 -> exec (run_benchmarks double show_double later) w2 = w2).
Proof.
  intros Hnone Hfail w1.
  assert (Hnoop : forall (w2 : world) cs, open_failed w2 ->
            exec (run_benchmarks double show_double cs) w2 = w2).
  { intros w2 cs (f & Hf & Hclosed).
    induction cs as [| [[[[[[e t] cl] x] y] z] o] cs IH]; [reflexivity |].
    unfold exec in *; simpl; unfold bind.
    pose proof (benchmark_unfold e t cl x y z o w2) as Hstep.
    unfold exec, eval, benchmark in Hstep. rewrite static_logFile_unfold, Hf in Hstep.
    cbv zeta in Hstep. cbn [fst snd] in Hstep. rewrite Hclosed in Hstep.
    destruct (Logger.benchmark double show_double e t cl x y z o w2) as [u w3].
    cbn [snd] in Hstep. subst w3. rewrite <- Hf.
    replace (set_logFile (logFile w2) w2) with w2 by (now destruct w2).
    exact IH. }
  assert (Hw1 : w1 = set_logFile (Some {| is_open := false; file_stream := fresh_ostream |}) w).
  { subst w1. rewrite benchmark_unfold. unfold eval.
    rewrite static_logFile_unfold, Hnone. cbv zeta. cbn [fst snd is_open].
    now rewrite Hfail. }
  assert (Hfailed : open_failed w1).
  { rewrite Hw1. eexists. split; reflexivity. }
  split; [exact Hw1 |]. split; [exact Hfailed |].
  split; [now apply Hnoop |]. intros w2. apply Hnoop.
Qed.

End BenchmarkProperties.

(** C6 as stated fails for a tag with a tab inside: the record written
    for the tag [a<TAB>b] reads as one line of seven tab-separated fields. *)
Lemma C6_counterexample :
  is_open (eval Logger.static_logFile sample_world) = true
  /\ option_map
       (fun f => map (split "009"%char) (split "010"%char (os_text (file_stream f))))
       (logFile (exec (Logger.benchmark string show_literal "0.25"%string
                         ("a" ++ TAB ++ "b")%string "3.5"%string 5 4 2 false)
                   sample_world))
     = Some [["0.25"; "a"; "b"; "3.5"; "5"; "4"; "2"]%string; [EmptyString]].
Proof. split; vm_compute; reflexivity. Qed.

Lemma C6_benchmark_appends_one_record_witness :
  is_open (eval Logger.static_logFile sample_world) = true
  /\ split "009"%char
       (String.concat TAB ["0.25"; "initial_partition"; "3.14159"; "5"; "4"; "2"]%string)
     = ["0.25"; "initial_partition"; "3.14159"; "5"; "4"; "2"]%string.
Proof.
  assert (Hopen : is_open (eval Logger.static_logFile sample_world) = true) by reflexivity.
  split; [exact Hopen |].
  destruct (C6_benchmark_appends_one_record string show_literal sample_world
              "0.25"%string "initial_partition"%string "3.14159"%string 5 4 2 false Hopen)
    as (_ & _ & _ & _ & _ & Hreads).
  apply Hreads.
  intros sep [-> | ->]; repeat split; reflexivity.
Defined.

Lemma C7_failed_open_silences_benchmark_witness :
  logFile read_only_world = None
  /\ fs_writable read_only_world (s_benchmarkFilename read_only_world) = false
  /\ open_failed
       (exec (Logger.benchmark string show_literal "0.25"%string "start"%string
                "3.5"%string 5 4 2 false) read_only_world).
Proof.
  assert (Hnone : logFile read_only_world = None) by reflexivity.
  assert (Hfail : fs_writable read_only_world (s_benchmarkFilename read_only_world) = false)
    by reflexivity.
  split; [exact Hnone |]. split; [exact Hfail |].
  destruct (C7_failed_open_silences_benchmark string show_literal read_only_world
              "0.25"%string "start"%string "3.5"%string 5 4 2 false
              [("0.5"%string, "next"%string, "3.25"%string, 5, 4, 2, true)] Hnone Hfail)
    as (_ & Hfailed & _).
  exact Hfailed.
Defined.

(** ** Where output goes *)

Lemma preserves_ret {A B : Type} (obs : world -> A) (b : B) : preserves obs (ret b).
Proof. intros w; reflexivity. Qed.

Lemma preserves_gets {A B : Type} (obs : world -> A) (f : world -> B) :
  preserves obs (gets f).
Proof. intros w; reflexivity. Qed.

Lemma preserves_modify {A : Type} (obs : world -> A) (f : world -> world) :
  (forall w, obs (f w) = obs w) -> preserves obs (modify f).
Proof. intros Hf w; apply Hf. Qed.

Lemma preserves_bind {A B C : Type} (obs : world -> A) (c : prog B) (k : B -> prog C) :
  preserves obs c -> (forall b, preserves obs (k b)) -> preserves obs (bind c k).
Proof.
  intros Hc Hk w. unfold exec, bind.
  specialize (Hc w). unfold exec in Hc.
  destruct (c w) as [b w1]; simpl in Hc. rewrite <- Hc. apply Hk.
Qed.

Lemma preserves_put_cout {A T : Type} `{Insertable T} (obs : world -> A) (x : T) :
  (forall os w, obs (set_std_cout os w) = obs w) -> preserves obs (stream_put Cout x).
Proof. intros Hobs w. apply Hobs. Qed.

Lemma preserves_apply_cout {A : Type} (obs : world -> A) (f : manipulator) :
  (forall os w, obs (set_std_cout os w) = obs w) -> preserves obs (stream_apply Cout f).
Proof. intros Hobs w. apply Hobs. Qed.

Create HintDb frame.

#[local] Hint Resolve preserves_ret preserves_gets : frame.
#[local] Hint Extern 2 (preserves _ (bind _ _)) =>
  apply preserves_bind; [| intros ?] : frame.
#[local] Hint Extern 2 (preserves _ (modify _)) =>
  apply preserves_modify; intros ?; reflexivity : frame.
#[local] Hint Extern 2 (preserves _ (stream_put Cout _)) =>
  apply preserves_put_cout; intros ? ?; reflexivity : frame.
#[local] Hint Extern 2 (preserves _ (stream_apply Cout _)) =>
  apply preserves_apply_cout; intros ? ?; reflexivity : frame.
#[local] Hint Extern 3 (preserves _ (if ?b then _ else _)) => destruct b : frame.
#[local] Hint Extern 3 (preserves _ (match ?x with Some _ => _ | None => _ end)) =>
  destruct x : frame.

(** Neither [std::cerr] nor the benchmark file is touched by anything that
    goes through a handle bound to [std::cout]. *)
Lemma handle_calls_frame {A : Type} (obs : world -> A) (h : Log.t) :
  (forall os w, obs (set_std_cout os w) = obs w) ->
  Log.m_ostream h = Cout ->
  (forall (T : Type) (ins : Insertable T) (d : T), preserves obs (Log.op_shl h d))
  /\ (forall f : manipulator, preserves obs (Log.op_shl_manip h f))
  /\ (forall value : bool, preserves obs (Log.hide h value))
  /\ (forall manip : hideIf.t, preserves obs (Log.op_shl_hideIf h manip))
  /\ (forall manip : hideIf.t, preserves obs (hideIf_op_shl h manip)).
Proof.
  intros Hobs Hcout.
  split; [intros T ins d | split; [intros f | split; [| split]]].
  - unfold Log.op_shl. rewrite Hcout.
    apply preserves_bind; [| intros ?; apply preserves_ret].
    destruct (Log.m_visible h);
      [now apply preserves_put_cout | apply preserves_ret].
  - unfold Log.op_shl_manip. rewrite Hcout.
    apply preserves_bind; [| intros ?; apply preserves_ret].
    destruct (Log.m_visible h);
      [now apply preserves_apply_cout | apply preserves_ret].
  - intros value w. reflexivity.
  - intros manip w. reflexivity.
  - intros manip w. unfold exec. destruct (friend_hideIf_hides h manip w) as [-> _].
    reflexivity.
Qed.

Lemma preserves_bind_new {A C : Type} (obs : world -> A) (level maxLevel : Z)
    (k : Log.t -> prog C) :
  (forall h, Log.m_ostream h = Cout -> preserves obs (k h)) ->
  preserves obs (bind (Log.new level maxLevel) k).
Proof.
  intros Hk w. unfold exec, bind.
  change (Log.new level maxLevel w) with (eval (Log.new level maxLevel) w, w).
  cbv iota. apply (Hk (eval (Log.new level maxLevel) w)). reflexivity.
Qed.

Lemma init_frame {A : Type} (obs : world -> A) (v : Z) (s : bool) (p : Z) :
  (forall os w, obs (set_std_cout os w) = obs w) ->
  (forall x w, obs (set_s_verboseLevel x w) = obs w) ->
  (forall x w, obs (set_s_silent x w) = obs w) ->
  preserves obs (Log.init v s p).
Proof.
  intros Hcout Hlevel Hsilent. unfold Log.init, Log.setVerboseLevel, Log.setSilent.
  apply preserves_bind; [apply preserves_modify; intros; apply Hlevel | intros _].
  apply preserves_bind; [apply preserves_modify; intros; apply Hsilent | intros _].
  apply preserves_bind_new. intros h Hh.
  destruct (handle_calls_frame obs h Hcout Hh) as (Hshl & _).
  apply preserves_bind; [apply Hshl | intros _; apply preserves_ret].
Qed.

Ltac frame_of_handle obs h Hcout :=
  let Hshl := fresh "Hshl" in
  let Hmanip := fresh "Hmanip" in
  let Hhide := fresh "Hhide" in
  let Hmember := fresh "Hmember" in
  let Hfriend := fresh "Hfriend" in
  destruct (handle_calls_frame obs h (fun _ _ => eq_refl) Hcout)
    as (Hshl & Hmanip & Hhide & Hmember & Hfriend);
  apply preserves_bind; [first [apply Hshl | apply Hmanip | apply Hhide
                               | apply Hmember | apply Hfriend]
                        | intros ?; apply preserves_ret].

Section WhereOutputGoes.

Variable double : Type.
Variable show_double : Z -> double -> string.

Lemma benchmark_keeps_cerr (e : double) (t : string) (cl : double)
    (a b l : Z) (o : bool) :
  preserves std_cerr (Logger.benchmark double show_double e t cl a b l o)
  /\ preserves std_cout (Logger.benchmark double show_double e t cl a b l o).
Proof.
  split; unfold Logger.benchmark, Logger.static_logFile, Logger.logFile_put,
    SafeOutFile_new; auto 30 with frame.
Qed.

Lemma call_keeps_cerr (c : call double) :
  on_cout double c ->
  c <> Call_popIndentLevel double ->
  preserves std_cerr (run_call double show_double c).
Proof.
  intros Hcout Hpop.
  destruct c; simpl in Hcout; unfold run_call, discard;
    try (frame_of_handle std_cerr h Hcout);
    try (apply init_frame; intros; reflexivity);
    try congruence;
    try apply benchmark_keeps_cerr;
    unfold Log.setVerboseLevel, Log.setSilent, Log.new, Log.verboseLevel, Log.isSilent,
      Log.this_levelVisible, Log.levelVisible, Macros.DEBUG_OUT,
      Logger.pushIndentLevel, Logger.indent, Logger.setBenchmarkFilename,
      Macros.RELEASE_OUT, Macros.INDENTED_RELEASE_OUT, Macros.ALL_OUT,
      Macros.INFO_OUT, Macros.PRINT_FUNCTION_NAME, Logger.indentLevel, Logger.indent;
    auto 30 with frame.
Qed.

Lemma call_keeps_file (c : call double) :
  on_cout double c ->
  (forall e t cl a b l o, c <> Call_benchmark double e t cl a b l o) ->
  preserves logFile (run_call double show_double c).
Proof.
  intros Hcout Hbench.
  destruct c; simpl in Hcout; unfold run_call, discard;
    try (frame_of_handle logFile h Hcout);
    try (apply init_frame; intros; reflexivity);
    try (exfalso; eapply Hbench; reflexivity);
    unfold Log.setVerboseLevel, Log.setSilent, Log.new, Log.verboseLevel, Log.isSilent,
      Log.this_levelVisible, Log.levelVisible, Macros.DEBUG_OUT,
      Logger.pushIndentLevel, Logger.popIndentLevel, Logger.indent,
      Logger.setBenchmarkFilename,
      Macros.RELEASE_OUT, Macros.INDENTED_RELEASE_OUT, Macros.ALL_OUT,
      Macros.INFO_OUT, Macros.PRINT_FUNCTION_NAME, Logger.indentLevel, Logger.indent,
      stream_put, stream_apply;
    auto 30 with frame.
Qed.

End WhereOutputGoes.

(** C10 as stated fails: a [benchmark] call with the file open sends its
    record to the benchmark file, which is neither [std::cout] nor the
    indent-underflow diagnostic. *)
Lemma C10_counterexample :
  on_cout string (Call_benchmark string "0.25"%string "start"%string "3.5"%string 5 4 2 true)
  /\ ~ (written_elsewhere
          (exec (run_call string show_literal
                   (Call_benchmark string "0.25"%string "start"%string "3.5"%string
                      5 4 2 true)) sample_world)
        = written_elsewhere sample_world
        \/ Call_benchmark string "0.25"%string "start"%string "3.5"%string 5 4 2 true
           = Call_popIndentLevel string).
Proof.
  split; [exact I |].
  intros [Hsame | Hpop]; [| discriminate Hpop].
  vm_compute in Hsame. discriminate Hsame.
Qed.

(** C10, amended: [getOutputStream(level, maxLevel)] is [std::cout]
    whatever its arguments, so every handle is bound to that one sink and
    stays bound to it; of all the calls of the header, the only one that
    writes to [std::cerr] is [popIndentLevel] at depth 0, with its
    diagnostic, and the only one that writes to the benchmark file is
    [benchmark]. *)
Theorem C10_one_shared_sink
    (double : Type) (show_double : Z -> double -> string)
    (c : call double) (w : world) (level maxLevel : Z) :
  on_cout double c ->
  let w' := exec (run_call double show_double c) w in
  Log.getOutputStream level maxLevel = Cout
  /\ Log.m_ostream (eval (Log.new level maxLevel) w) = Cout
  /\ (forall (h : Log.t) (value : bool),
        Log.m_ostream (eval (Log.hide h value) w) = Log.m_ostream h
        /\ Log.m_ostream (Log.copy h) = Log.m_ostream h)
  /\ (std_cerr w' = std_cerr w
      \/ (c = Call_popIndentLevel double
          /\ s_indentLevel w = 0
          /\ std_cerr w' = std_endl (put (std_cerr w) Logger.underflow_warning)))
  /\ (logFile w' = logFile w
      \/ exists e t cl a b l o, c = Call_benchmark double e t cl a b l o).
Proof.
  intros Hcout w'.
  split; [reflexivity |]. split; [reflexivity |].
  split; [intros h value; split; reflexivity |].
  split.
  - assert (Hcases : c = Call_popIndentLevel double \/ c <> Call_popIndentLevel double)
      by (destruct c; (now left) || (right; discriminate)).
    destruct Hcases as [Hpop | Hother].
    + subst c w'. unfold exec; simpl run_call. rewrite pop_unfold; simpl snd.
      destruct (Z.eqb_spec (s_indentLevel w) 0) as [H0 | Hpos].
      * right. repeat split. exact H0.
      * left. reflexivity.
    + left. apply (call_keeps_cerr double show_double c Hcout Hother).
  - assert (Hcases : (exists e t cl a b l o, c = Call_benchmark double e t cl a b l o)
                     \/ (forall e t cl a b l o, c <> Call_benchmark double e t cl a b l o)).
    { destruct c; try (right; intros; discriminate).
      left. repeat eexists. }
    destruct Hcases as [Hbench | Hother]; [now right | left].
    apply (call_keeps_file double show_double c Hcout Hother).
Qed.

Lemma C10_one_shared_sink_witness :
  on_cout string (Call_op_shl string (Log.mk 0 UINT_MAX true Cout) string _ "x"%string)
  /\ std_cerr (exec (run_call string show_literal
                       (Call_op_shl string (Log.mk 0 UINT_MAX true Cout) string _
                          "x"%string)) sample_world)
     = std_cerr sample_world.
Proof.
  assert (Hcout : on_cout string
            (Call_op_shl string (Log.mk 0 UINT_MAX true Cout) string _ "x"%string))
    by reflexivity.
  split; [exact Hcout |].
  destruct (C10_one_shared_sink string show_literal
              (Call_op_shl string (Log.mk 0 UINT_MAX true Cout) string _ "x"%string)
              sample_world 0 UINT_MAX Hcout) as (_ & _ & _ & [Hsame | (Hpop & _)] & _).
  - exact Hsame.
  - discriminate Hpop.
Defined.

(** ** Worked examples *)

Example init_then_levels :
  eval (Log.init 1 false 6 ;;
        h0 <- Log.new 0 UINT_MAX ;;
        h2 <- Log.new 2 UINT_MAX ;;
        Log.setSilent true ;;
        h0' <- Log.new 0 UINT_MAX ;;
        ret (Log.m_visible h0, Log.m_visible h2, Log.m_visible h0')) sample_world
  = (true, false, false).
Proof. reflexivity. Qed.

Example degenerate_levels_are_invisible :
  eval (Log.setVerboseLevel 5 ;; h <- Log.new 7 3 ;; ret (Log.m_visible h)) sample_world
  = false.
Proof. reflexivity. Qed.

Example two_pushes_indent :
  String.length
    (eval (Logger.pushIndentLevel ;; Logger.pushIndentLevel ;; Logger.indent) sample_world)
  = 4%nat.
Proof. reflexivity. Qed.

Example chained_appends :
  os_text (std_cout (exec (h <- Log.new 0 UINT_MAX ;;
                           h <- Log.op_shl h "depth "%string ;;
                           h <- Log.op_shl h (3 : unsigned_int) ;;
                           Log.op_shl_manip h std_endl) sample_world))
  = ("depth 3" ++ LF)%string.
Proof. reflexivity. Qed.

Example tag_only_record :
  option_map (fun f => os_text (file_stream f))
    (logFile (exec (Logger.benchmark string show_literal "0.25"%string "done"%string
                      "3.5"%string 5 4 2 true) sample_world))
  = Some ("done" ++ LF)%string.
Proof. reflexivity. Qed.

Example stale_handle_is_hidden_by_hide_false :
  eval (h <- Log.new 0 UINT_MAX ;;
        Log.setSilent true ;;
        h' <- Log.hide h false ;;
        ret (Log.m_visible h, Log.m_visible h')) sample_world
  = (true, false).
Proof. reflexivity. Qed.

(** * Further properties of the header *)

(** ** The verbosity window *)

Lemma visible_iff_in_window (w : world) (level maxLevel : Z) :
  Log.m_visible (eval (Log.new level maxLevel) w) = true
  <-> s_silent w = 0 /\ level <= s_verboseLevel w <= maxLevel.
Proof.
  unfold eval, Log.new, bind. rewrite levelVisible_reads; simpl.
  rewrite !andb_true_iff, Z.eqb_eq, !Z.leb_le. tauto.
Qed.

(** X1: a handle that is visible stays visible when it is built with a
    lower level or with a higher maxLevel, the configuration being the
    same: widening the window [level .. maxLevel] never hides output. *)
Theorem X1_wider_window_keeps_visible (w : world) (level maxLevel level' maxLevel' : Z) :
  level' <= level ->
  maxLevel <= maxLevel' ->
  Log.m_visible (eval (Log.new level maxLevel) w) = true ->
  Log.m_visible (eval (Log.new level' maxLevel') w) = true.
Proof.
  intros Hl Hm. rewrite !visible_iff_in_window. intros (Hs & Hlo & Hhi).
  split; [exact Hs | lia].
Qed.

Lemma X1_wider_window_keeps_visible_witness :
  Log.m_visible (eval (Log.new 0 UINT_MAX) (exec (Log.setVerboseLevel 3) sample_world)) = true.
Proof.
  apply (X1_wider_window_keeps_visible (exec (Log.setVerboseLevel 3) sample_world) 2 5 0 UINT_MAX).
  - lia.
  - unfold UINT_MAX, UINT_BITS; lia.
  - reflexivity.
Defined.

(** X2: a handle built with [level > maxLevel] is invisible under every
    configuration, and no [hide] call, whatever its argument and whatever
    the configuration has become, makes it visible. *)
Theorem X2_empty_window_never_visible (w w' : world) (level maxLevel : Z) (value : bool) :
  maxLevel < level ->
  Log.m_visible (eval (Log.new level maxLevel) w) = false
  /\ Log.m_visible (eval (Log.hide (eval (Log.new level maxLevel) w) value) w') = false.
Proof.
  intros Hempty. split.
  - apply not_true_is_false. rewrite visible_iff_in_window. lia.
  - unfold eval. rewrite hide_unfold.
    unfold eval, Log.this_levelVisible. rewrite levelVisible_reads. simpl.
    apply not_true_is_false. rewrite !andb_true_iff, !Z.leb_le.
    lia.
Qed.

Lemma X2_empty_window_never_visible_witness :
  Log.m_visible (eval (Log.new 7 3) sample_world) = false
  /\ Log.m_visible
       (eval (Log.hide (eval (Log.new 7 3) sample_world) false)
          (exec (Log.setVerboseLevel 5) sample_world)) = false.
Proof.
  apply (X2_empty_window_never_visible sample_world
           (exec (Log.setVerboseLevel 5) sample_world) 7 3 false).
  lia.
Defined.

(** X3: with logging not silenced and a verbosity that is at least
    [level], exactly one of the handles [Log(level, k)] and [Log(k + 1)]
    is visible, for every [k] below [UINT_MAX]: a message and the more
    detailed message that replaces it at higher verbosity are never printed
    together and never both dropped.  At [k = UINT_MAX] the sum [k + 1]
    wraps to 0 and both handles are visible. *)
Theorem X3_adjacent_windows_exclusive (w : world) (level k : Z) :
  is_uint (s_verboseLevel w) ->
  is_uint k ->
  s_silent w = 0 ->
  level <= s_verboseLevel w ->
  xorb (Log.m_visible (eval (Log.new level k) w))
       (Log.m_visible (eval (Log.new (to_uint (k + 1)) UINT_MAX) w))
  = negb (k =? UINT_MAX).
Proof.
  intros [Hmin Hmax] [Hk0 Hk] Hs Hl.
  destruct (Z.eqb_spec k UINT_MAX) as [Htop | Hbelow].
  - subst k.
    assert (H1 : Log.m_visible (eval (Log.new level UINT_MAX) w) = true)
      by (apply visible_iff_in_window; lia).
    assert (H2 : Log.m_visible (eval (Log.new (to_uint (UINT_MAX + 1)) UINT_MAX) w) = true).
    { apply visible_iff_in_window. change (to_uint (UINT_MAX + 1)) with 0. lia. }
    now rewrite H1, H2.
  - assert (Hnext : to_uint (k + 1) = k + 1).
    { apply to_uint_small. unfold is_uint. lia. }
    rewrite Hnext.
    destruct (Z_le_gt_dec (s_verboseLevel w) k) as [Hle | Hgt].
    + assert (H1 : Log.m_visible (eval (Log.new level k) w) = true)
        by (apply visible_iff_in_window; lia).
      assert (H2 : Log.m_visible (eval (Log.new (k + 1) UINT_MAX) w) = false)
        by (apply not_true_is_false; rewrite visible_iff_in_window; lia).
      now rewrite H1, H2.
    + assert (H1 : Log.m_visible (eval (Log.new level k) w) = false)
        by (apply not_true_is_false; rewrite visible_iff_in_window; lia).
      assert (H2 : Log.m_visible (eval (Log.new (k + 1) UINT_MAX) w) = true)
        by (apply visible_iff_in_window; lia).
      now rewrite H1, H2.
Qed.

Lemma X3_adjacent_windows_exclusive_witness :
  xorb (Log.m_visible (eval (Log.new 0 0) sample_world))
       (Log.m_visible (eval (Log.new (to_uint (0 + 1)) UINT_MAX) sample_world))
  = negb (0 =? UINT_MAX).
Proof.
  apply (X3_adjacent_windows_exclusive sample_world 0 0).
  - unfold is_uint; vm_compute; split; discriminate.
  - unfold is_uint; vm_compute; split; discriminate.
  - reflexivity.
  - cbv; discriminate.
Defined.

(** ** Configuration accessors *)

(** X4: [verboseLevel()] and [isSilent()] return what [setVerboseLevel]
    and [setSilent] stored last ([isSilent] recovers the flag from the
    [unsigned int] it is kept in), the two settings do not disturb each
    other, and the setters can be called in either order. *)
Theorem X4_configuration_round_trip (w : world) (level level' : Z) (silent silent' : bool) :
  eval Log.verboseLevel (exec (Log.setVerboseLevel level) w) = level
  /\ eval Log.isSilent (exec (Log.setSilent silent) w) = silent
  /\ eval Log.verboseLevel (exec (Log.setSilent silent) w) = eval Log.verboseLevel w
  /\ eval Log.isSilent (exec (Log.setVerboseLevel level) w) = eval Log.isSilent w
  /\ exec (Log.setVerboseLevel level ;; Log.setVerboseLevel level') w
     = exec (Log.setVerboseLevel level') w
  /\ exec (Log.setSilent silent ;; Log.setSilent silent') w = exec (Log.setSilent silent') w
  /\ exec (Log.setSilent silent ;; Log.setVerboseLevel level) w
     = exec (Log.setVerboseLevel level ;; Log.setSilent silent) w.
Proof.
  repeat split; try reflexivity. now destruct silent.
Qed.

(** ** Copies of a handle *)

(** X5: a copy-constructed handle equals the handle it was copied from,
    and after [this = other] between handles bound to the same stream
    (every constructed handle is bound to [std::cout]) [this] equals
    [other]: in particular it carries the visibility [other] had, not one
    computed from the configuration in force at the assignment. *)
Theorem X5_copy_and_assign (this other : Log.t) :
  Log.m_ostream this = Log.m_ostream other ->
  Log.copy other = other
  /\ Log.assign this other = other
  /\ (forall (w : world) (T : Type) (ins : Insertable T) (data : T),
        exec (Log.op_shl (Log.assign this other) data) w = exec (Log.op_shl other data) w).
Proof.
  intros Hsame.
  assert (Hassign : Log.assign this other = other).
  { unfold Log.assign. rewrite Hsame. now destruct other. }
  split; [now destruct other |]. split; [exact Hassign |].
  intros w T ins data. now rewrite Hassign.
Qed.

Lemma X5_copy_and_assign_witness :
  Log.assign (eval (Log.new 4 9) sample_world) stale_handle = stale_handle
  /\ Log.m_visible (Log.assign (eval (Log.new 0 UINT_MAX) silenced_world) stale_handle)
     = true.
Proof.
  split.
  - apply (X5_copy_and_assign (eval (Log.new 4 9) sample_world) stale_handle).
    reflexivity.
  - destruct (X5_copy_and_assign (eval (Log.new 0 UINT_MAX) silenced_world) stale_handle
                eq_refl) as (_ & Hassign & _).
    rewrite Hassign. reflexivity.
Defined.

(** ** Hiding, continued *)

(** X6: of two [hide] calls in a row only the last one counts: the handle
    ends as it would after the second call alone. *)
Theorem X6_last_hide_wins (w : world) (h : Log.t) (first second : bool) :
  eval (h1 <- Log.hide h first ;; Log.hide h1 second) w = eval (Log.hide h second) w
  /\ exec (h1 <- Log.hide h first ;; Log.hide h1 second) w = w.
Proof.
  unfold eval, exec, bind. rewrite !hide_unfold.
  split; reflexivity.
Qed.

(** X7: appending [hideIf(b)] with the friend operator and then a value:
    the value reaches the stream of the handle exactly when [b] is false and
    the level/silence gate of the handle holds at that moment, whatever the
    [visible] flag was before; the handle that comes back carries that
    visibility. *)
Theorem X7_friend_hideIf_then_append
    (T : Type) (ins : Insertable T) (out : Log.t) (b : bool) (data : T) (w : world) :
  let shown := negb b && eval (Log.this_levelVisible out) w in
  exec (h <- hideIf_op_shl out (hideIf.ctor b) ;; Log.op_shl h data) w
  = (if shown
     then set_stream (Log.m_ostream out) (put (stream_of (Log.m_ostream out) w) data) w
     else w)
  /\ eval (h <- hideIf_op_shl out (hideIf.ctor b) ;; Log.op_shl h data) w
     = Log.set_m_visible shown out.
Proof.
  intros shown. unfold eval, exec, bind.
  destruct (friend_hideIf_hides out (hideIf.ctor b) w) as [-> _].
  rewrite hide_unfold. cbv beta iota. rewrite op_shl_unfold. simpl.
  fold shown. split; reflexivity.
Qed.

(** ** The output macros *)

(** X8: silencing the log does not silence the macros.  With [silent] set,
    a statement [Log(level, maxLevel) << x] leaves the process state as it
    was, whereas [RELEASE_OUT(x)], [ALL_OUT(x)] and [INFO_OUT(x)] still hand
    [x] to [std::cout] (and change nothing else), and [DEBUG_OUT(x)] is
    compiled out. *)
Theorem X8_macros_ignore_silence
    (T : Type) (ins : Insertable T) (w : world) (level maxLevel : Z) (x : T) :
  eval Log.isSilent w = true ->
  exec (h <- Log.new level maxLevel ;; Log.op_shl h x) w = w
  /\ exec (Macros.RELEASE_OUT x) w = set_std_cout (put (std_cout w) x) w
  /\ exec (Macros.ALL_OUT x) w = set_std_cout (put (std_cout w) x) w
  /\ exec (Macros.INFO_OUT x) w = set_std_cout (put (std_cout w) x) w
  /\ exec (Macros.DEBUG_OUT x) w = w.
Proof.
  intros Hsilent.
  assert (Hs : (s_silent w =? 0) = false).
  { unfold eval, Log.isSilent, gets in Hsilent; simpl in Hsilent.
    now apply negb_true_iff. }
  split; [| repeat split].
  unfold exec, Log.new, bind. rewrite levelVisible_reads. cbv beta iota.
  unfold ret. rewrite op_shl_unfold. simpl. now rewrite Hs.
Qed.

Lemma X8_macros_ignore_silence_witness :
  eval Log.isSilent silenced_world = true
  /\ os_text (std_cout (exec (Macros.ALL_OUT "x"%string) silenced_world)) = "x"%string
  /\ exec (h <- Log.new 0 UINT_MAX ;; Log.op_shl h "x"%string) silenced_world
     = silenced_world.
Proof.
  assert (Hsilent : eval Log.isSilent silenced_world = true) by reflexivity.
  split; [exact Hsilent |].
  destruct (X8_macros_ignore_silence string _ silenced_world 0 UINT_MAX "x"%string Hsilent)
    as (Hlog & _ & Hall & _).
  split; [now rewrite Hall | exact Hlog].
Defined.

(** ** The indentation tracker, continued *)

Lemma indent_length (w : world) :
  Z.of_nat (String.length (eval Logger.indent w))
  = to_uint (s_indentLevel w * s_indentWidth w).
Proof.
  pose proof (to_uint_range (s_indentLevel w * s_indentWidth w)) as [Hlo _].
  unfold eval. rewrite indent_unfold; cbv zeta; simpl.
  destruct (Z.eqb_spec (Z.of_nat (String.length (s_indentString w)))
              (to_uint (s_indentLevel w * s_indentWidth w))) as [Heq | Hne].
  - exact Heq.
  - now apply length_string_assign.
Qed.

(** X10: whatever the cached text holds, [indent()] returns a text whose
    length is the [unsigned int] product [depth * width]; it never changes
    the depth; and reading it again returns the same text and changes
    nothing more (the second read finds the cache up to date). *)
Theorem X10_indent_reads_are_stable (w : world) :
  Z.of_nat (String.length (eval Logger.indent w))
    = to_uint (s_indentLevel w * s_indentWidth w)
  /\ eval Logger.indentLevel (exec Logger.indent w) = eval Logger.indentLevel w
  /\ eval Logger.indent (exec Logger.indent w) = eval Logger.indent w
  /\ exec Logger.indent (exec Logger.indent w) = exec Logger.indent w.
Proof.
  pose proof (indent_length w) as Hlen.
  assert (Hcache : s_indentString (exec Logger.indent w) = eval Logger.indent w).
  { unfold exec, eval. rewrite indent_unfold; cbv zeta; simpl.
    destruct (Z.of_nat (String.length (s_indentString w))
              =? to_uint (s_indentLevel w * s_indentWidth w)); reflexivity. }
  destruct (indent_keeps_counters w) as (Hl & Hw & _).
  assert (Hhit : (Z.of_nat (String.length (s_indentString (exec Logger.indent w)))
                  =? to_uint (s_indentLevel (exec Logger.indent w)
                              * s_indentWidth (exec Logger.indent w))) = true).
  { rewrite Hcache, Hl, Hw, Hlen. apply Z.eqb_refl. }
  split; [exact Hlen |]. split; [exact Hl |].
  unfold eval at 1, exec at 2.
  rewrite (indent_unfold (exec Logger.indent w)); cbv zeta. rewrite Hhit. simpl.
  split; [exact Hcache | reflexivity].
Qed.

(** X11: [popIndentLevel] followed by [pushIndentLevel] gives back the
    process state when the depth was above 0, but at depth 0 it leaves the
    depth at 1: the pop that found nothing to close is not made up for. *)
Theorem X11_pop_then_push (w : world) :
  is_uint (s_indentLevel w) ->
  (0 < s_indentLevel w ->
     exec (Logger.popIndentLevel ;; Logger.pushIndentLevel) w = w)
  /\ (s_indentLevel w = 0 ->
     eval Logger.indentLevel
       (exec (Logger.popIndentLevel ;; Logger.pushIndentLevel) w) = 1).
Proof.
  intros Hd. rewrite exec_bind. unfold exec. rewrite push_unfold, pop_unfold.
  cbn [snd]. split.
  - intros Hpos.
    destruct (Z.eqb_spec (s_indentLevel w) 0) as [H0 | _]; [lia |].
    assert (Hs : to_uint (s_indentLevel w - 1) = s_indentLevel w - 1).
    { apply to_uint_small. unfold is_uint in *. lia. }
    rewrite Hs. cbn [s_indentLevel set_s_indentLevel].
    replace (s_indentLevel w - 1 + 1) with (s_indentLevel w) by lia.
    rewrite (to_uint_small _ Hd), set_s_indentLevel_twice.
    apply set_s_indentLevel_same.
  - intros H0. rewrite H0. cbn [Z.eqb].
    unfold eval, Logger.indentLevel, gets.
    cbn [fst s_indentLevel set_s_indentLevel set_std_cerr]. now rewrite H0.
Qed.

Lemma X11_pop_then_push_witness :
  is_uint (s_indentLevel sample_world)
  /\ eval Logger.indentLevel
       (exec (Logger.popIndentLevel ;; Logger.pushIndentLevel) sample_world) = 1.
Proof.
  assert (Hd : is_uint (s_indentLevel sample_world))
    by (unfold is_uint; vm_compute; split; discriminate).
  split; [exact Hd |].
  destruct (X11_pop_then_push sample_world Hd) as (_ & Hzero).
  apply Hzero. reflexivity.
Defined.

Lemma append_empty_r (a : string) : (a ++ EmptyString)%string = a.
Proof. induction a as [| x a IH]; simpl; [reflexivity | now rewrite IH]. Qed.

(** Pops at depth 0 only pile up warnings. *)
Lemma pops_at_zero (n : nat) (w : world) :
  s_indentLevel w = 0 ->
  let w' := exec (run_indent_calls (repeat Pop n)) w in
  s_indentLevel w' = 0
  /\ os_text (std_cerr w')
     = (os_text (std_cerr w) ++ repeat_text n (Logger.underflow_warning ++ LF))%string
  /\ std_cout w' = std_cout w.
Proof.
  revert w; induction n as [| n IH]; intros w H0.
  - cbv zeta. change (exec (run_indent_calls (repeat Pop 0)) w) with w.
    split; [exact H0 |]. split; [| reflexivity].
    simpl. now rewrite append_empty_r.
  - cbv zeta. change (repeat Pop (S n)) with (Pop :: repeat Pop n).
    rewrite run_indent_calls_cons.
    set (w1 := set_std_cerr (write (write (std_cerr w) Logger.underflow_warning) LF) w).
    assert (Hstep : exec (run_indent_call Pop) w = w1).
    { unfold exec; simpl run_indent_call. rewrite pop_unfold, H0. reflexivity. }
    rewrite Hstep.
    assert (H1 : s_indentLevel w1 = 0) by exact H0.
    destruct (IH w1 H1) as (Hd & Herr & Hout).
    split; [exact Hd |]. split; [| exact Hout].
    rewrite Herr. subst w1. cbn [std_cerr set_std_cerr write os_text].
    simpl repeat_text. now rewrite !append_assoc.
Qed.

(** X12: [n] calls of [popIndentLevel] from depth [d] leave the depth at
    [d - n] without a word when [n <= d]; when [n >= d] they leave it at 0
    and write exactly [n - d] warning lines to [std::cerr], one for each pop
    that found the depth at 0, and nothing to [std::cout]. *)
Theorem X12_pops_clamp_and_warn (n : nat) (w : world) :
  is_uint (s_indentLevel w) ->
  let w' := exec (run_indent_calls (repeat Pop n)) w in
  (Z.of_nat n <= s_indentLevel w ->
     eval Logger.indentLevel w' = s_indentLevel w - Z.of_nat n
     /\ std_cerr w' = std_cerr w)
  /\ (s_indentLevel w <= Z.of_nat n ->
     eval Logger.indentLevel w' = 0
     /\ os_text (std_cerr w')
        = (os_text (std_cerr w)
           ++ repeat_text (n - Z.to_nat (s_indentLevel w))
                (Logger.underflow_warning ++ LF))%string
     /\ std_cout w' = std_cout w).
Proof.
  intros Hd w'. split.
  - intros Hn. subst w'. rewrite pops_subtract by assumption. split; reflexivity.
  - intros Hn. subst w'.
    set (d := Z.to_nat (s_indentLevel w)).
    assert (Hsplit : repeat Pop n = repeat Pop d ++ repeat Pop (n - d)).
    { rewrite <- repeat_app. f_equal. unfold is_uint in Hd. lia. }
    rewrite Hsplit, run_indent_calls_app.
    assert (Hfirst : exec (run_indent_calls (repeat Pop d)) w = set_s_indentLevel 0 w).
    { rewrite pops_subtract; [| assumption | unfold is_uint in Hd; lia].
      f_equal. unfold is_uint in Hd. lia. }
    rewrite Hfirst.
    destruct (pops_at_zero (n - d) (set_s_indentLevel 0 w) eq_refl) as (H0 & Herr & Hout).
    split; [exact H0 |]. split; [exact Herr | exact Hout].
Qed.

Lemma X12_pops_clamp_and_warn_witness :
  is_uint (s_indentLevel (set_s_indentLevel 2 sample_world))
  /\ os_text (std_cerr (exec (run_indent_calls (repeat Pop 5))
                          (set_s_indentLevel 2 sample_world)))
     = repeat_text 3 (Logger.underflow_warning ++ LF).
Proof.
  assert (Hd : is_uint (s_indentLevel (set_s_indentLevel 2 sample_world)))
    by (unfold is_uint; vm_compute; split; discriminate).
  split; [exact Hd |].
  destruct (X12_pops_clamp_and_warn 5 (set_s_indentLevel 2 sample_world) Hd)
    as (_ & Hover).
  destruct Hover as (_ & Herr & _); [cbv; discriminate |].
  rewrite Herr. reflexivity.
Defined.

(** X9: [INDENTED_RELEASE_OUT(x)] prints nothing, and leaves the whole
    process state alone, when the depth is above [MAX_INDENT_LEVEL];
    otherwise it hands [std::cout] the current indent text, whose length is
    the [unsigned int] product [depth * width], and then [x].  In both
    cases the depth and [std::cerr] are as before, silent or not. *)
Theorem X9_indented_output_is_capped
    (T : Type) (ins : Insertable T) (w : world) (x : T) :
  let w' := exec (Macros.INDENTED_RELEASE_OUT x) w in
  (MAX_INDENT_LEVEL w < s_indentLevel w -> w' = w)
  /\ (s_indentLevel w <= MAX_INDENT_LEVEL w ->
      std_cout w' = put (write (std_cout w) (eval Logger.indent w)) x
      /\ Z.of_nat (String.length (eval Logger.indent w))
         = to_uint (s_indentLevel w * s_indentWidth w))
  /\ s_indentLevel w' = s_indentLevel w
  /\ std_cerr w' = std_cerr w.
Proof.
  intros w'. subst w'.
  unfold exec, Macros.INDENTED_RELEASE_OUT, Logger.indentLevel, bind, gets.
  cbv beta iota.
  destruct (indent_keeps_counters w) as (Hl & _ & Herr & Hout & _).
  unfold exec in Hl, Herr, Hout.
  destruct (Z.leb_spec (s_indentLevel w) (MAX_INDENT_LEVEL w)) as [Hle | Hgt].
  - unfold eval. destruct (Logger.indent w) as [pad w1] eqn:Hi.
    cbn [fst snd] in *. unfold stream_put, modify. cbn [snd].
    split; [lia |]. split; [| split].
    + intros _. split.
      * cbn [set_stream stream_of std_cout set_std_cout]. now rewrite Hout.
      * pose proof (indent_length w) as Hlen. unfold eval in Hlen.
        now rewrite Hi in Hlen.
    + cbn [set_stream s_indentLevel set_std_cout]. exact Hl.
    + cbn [set_stream std_cerr set_std_cout]. exact Herr.
  - cbn [snd]. split; [reflexivity |]. split; [lia |]. split; reflexivity.
Qed.

Lemma X9_indented_output_is_capped_witness :
  os_text (std_cout (exec (Macros.INDENTED_RELEASE_OUT "x"%string)
                       (set_s_indentLevel 2 sample_world)))
  = "    x"%string
  /\ exec (Macros.INDENTED_RELEASE_OUT "x"%string) (set_s_indentLevel 5 sample_world)
     = set_s_indentLevel 5 sample_world.
Proof.
  split.
  - destruct (X9_indented_output_is_capped string _ (set_s_indentLevel 2 sample_world)
                "x"%string) as (_ & Hshown & _).
    destruct Hshown as [Hout _]; [cbv; discriminate |].
    rewrite Hout. reflexivity.
  - destruct (X9_indented_output_is_capped string _ (set_s_indentLevel 5 sample_world)
                "x"%string) as (Hcapped & _).
    apply Hcapped. reflexivity.
Defined.

(** ** The benchmark recorder, continued *)

Section BenchmarkSequences.

Variable double : Type.
Variable show_double : Z -> double -> string.

(** X13: a run of [benchmark] calls on the open file only ever appends:
    afterwards the file holds what it held before, followed by the records
    of the calls in the order of the calls, each ended by its newline; the
    file stays open and [std::cout] and [std::cerr] are not written to. *)
Theorem X13_benchmarks_append_in_order
    (cs : list (double * string * double * Z * Z * Z * bool))
    (w : world) (f : SafeOutFile) :
  logFile w = Some f ->
  is_open f = true ->
  let w' := exec (run_benchmarks double show_double cs) w in
  (exists f' : SafeOutFile,
      logFile w' = Some f'
      /\ is_open f' = true
      /\ os_text (file_stream f')
         = (os_text (file_stream f)
            ++ records_text double show_double (os_precision (file_stream f)) cs)%string)
  /\ std_cout w' = std_cout w
  /\ std_cerr w' = std_cerr w.
Proof.
  revert w f; induction cs as [| c rest IH]; intros w f Hfile Hopen.
  - cbv zeta. change (exec (run_benchmarks double show_double []) w) with w.
    split; [| split; reflexivity].
    exists f. split; [exact Hfile |]. split; [exact Hopen |].
    simpl. now rewrite append_empty_r.
  - destruct c as [[[[[[e t] cl] a] b] l] o]. cbv zeta.
    change (run_benchmarks double show_double ((e, t, cl, a, b, l, o) :: rest))
      with (bind (Logger.benchmark double show_double e t cl a b l o)
              (fun _ => run_benchmarks double show_double rest)).
    rewrite exec_bind.
    assert (Hstatic : eval Logger.static_logFile w = f).
    { unfold eval. now rewrite static_logFile_unfold, Hfile. }
    pose proof (benchmark_unfold double show_double e t cl a b l o w) as Hstep.
    cbv zeta in Hstep. rewrite Hstatic, Hopen in Hstep. rewrite Hstep.
    set (f1 := {| is_open := true;
                  file_stream :=
                    write (file_stream f)
                      (record_line double show_double (os_precision (file_stream f))
                         e t cl a b l o ++ LF) |}).
    destruct (IH (set_logFile (Some f1) w) f1 eq_refl eq_refl)
      as ((f' & Hfile' & Hopen' & Htext') & Hout' & Herr').
    split; [| split; [exact Hout' | exact Herr']].
    exists f'. split; [exact Hfile' |]. split; [exact Hopen' |].
    rewrite Htext'. subst f1. cbn [file_stream write os_text os_precision].
    cbn [records_text]. now rewrite !append_assoc.
Qed.

(** X14: the file name only matters until the first [benchmark] call.
    Once that call has been made, [setBenchmarkFilename] changes nothing
    about where the records go: the call that follows it writes to the same
    stream as it would have without it.  Before the first call, the name
    set last is the one that is opened. *)
Theorem X14_filename_fixed_at_first_use
    (w : world) (name : string) (e : double) (t : string) (cl : double)
    (a b l : Z) (o : bool) :
  (forall f : SafeOutFile, logFile w = Some f ->
     exec (Logger.setBenchmarkFilename name ;;
           Logger.benchmark double show_double e t cl a b l o) w
     = exec (Logger.benchmark double show_double e t cl a b l o ;;
             Logger.setBenchmarkFilename name) w)
  /\ (logFile w = None ->
      exists f' : SafeOutFile,
        logFile (exec (Logger.setBenchmarkFilename name ;;
                       Logger.benchmark double show_double e t cl a b l o) w) = Some f'
        /\ is_open f' = fs_writable w name).
Proof.
  rewrite !exec_bind.
  change (exec (Logger.setBenchmarkFilename name) w) with (set_s_benchmarkFilename name w).
  pose proof (benchmark_unfold double show_double e t cl a b l o
                (set_s_benchmarkFilename name w)) as Hnamed.
  pose proof (benchmark_unfold double show_double e t cl a b l o w) as Hplain.
  cbv zeta in Hnamed, Hplain. unfold eval in Hnamed, Hplain.
  rewrite static_logFile_unfold in Hnamed, Hplain.
  cbn [logFile set_s_benchmarkFilename] in Hnamed.
  split.
  - intros f Hfile. rewrite Hfile in Hnamed, Hplain. cbn [fst] in Hnamed, Hplain.
    rewrite Hnamed, Hplain.
    destruct (is_open f); reflexivity.
  - intros Hnone. rewrite Hnone in Hnamed. cbv zeta in Hnamed.
    cbn [fst is_open file_stream s_benchmarkFilename fs_writable
         set_s_benchmarkFilename] in Hnamed.
    rewrite Hnamed.
    destruct (fs_writable w name); eexists; split; reflexivity.
Qed.

End BenchmarkSequences.

Lemma X13_benchmarks_append_in_order_witness :
  exists f' : SafeOutFile,
    logFile (exec (run_benchmarks string show_literal
                     [("0.5"%string, "next"%string, "3.25"%string, 5, 4, 2, true);
                      ("0.75"%string, "last"%string, "3.0"%string, 1, 1, 1, true)])
               (set_logFile (Some (mk_SafeOutFile true fresh_ostream)) sample_world))
    = Some f'
    /\ os_text (file_stream f') = ("next" ++ LF ++ "last" ++ LF)%string.
Proof.
  destruct (X13_benchmarks_append_in_order string show_literal
              [("0.5"%string, "next"%string, "3.25"%string, 5, 4, 2, true);
               ("0.75"%string, "last"%string, "3.0"%string, 1, 1, 1, true)]
              (set_logFile (Some (mk_SafeOutFile true fresh_ostream)) sample_world)
              (mk_SafeOutFile true fresh_ostream) eq_refl eq_refl)
    as ((f' & Hfile & _ & Htext) & _).
  exists f'. split; [exact Hfile |]. rewrite Htext. reflexivity.
Defined.

Lemma X14_filename_fixed_at_first_use_witness :
  exists f' : SafeOutFile,
    logFile (exec (Logger.setBenchmarkFilename "other.tsv"%string ;;
                   Logger.benchmark string show_literal "0.5"%string "next"%string
                     "3.25"%string 5 4 2 true) read_only_world) = Some f'
    /\ is_open f' = false.
Proof.
  destruct (X14_filename_fixed_at_first_use string show_literal read_only_world
              "other.tsv"%string "0.5"%string "next"%string "3.25"%string 5 4 2 true)
    as (_ & Hfirst).
  destruct (Hfirst eq_refl) as (f' & Hfile & Hopen).
  exists f'. split; [exact Hfile | exact Hopen].
Defined.
